(** * A registration form: zod schema, react-hook-form field array, submit handler

    Shallow embedding of [src/App.tsx].  The component is written against
    three libraries (zod, @hookform/resolvers/zod, react-hook-form); the
    parts of their behaviour the component relies on are embedded in the
    modules [JS], [Zod] and [RHF] below, and the component itself in
    [App]. *)

From Stdlib Require Import Ascii String.
From stdpp Require Import gmap strings list.

(** ** JavaScript strings *)

Module JS.

(** A JavaScript string is a sequence of UTF-16 code units, a [list N]. *)

(** A string literal of the source (ASCII only). *)
Definition lit (s : string) : list N :=
  N_of_ascii <$> list_ascii_of_string s.

(** [LineTerminator]: LF, CR, U+2028, U+2029. *)
Definition isLineTerminator (c : N) : bool :=
  bool_decide (c ∈ [10; 13; 8232; 8233]%N).

(** [WhiteSpace]: TAB, VT, FF, U+FEFF and the code points of category Zs. *)
Definition isWhiteSpace (c : N) : bool :=
  bool_decide (c ∈ [9; 11; 12; 32; 160; 5760; 8239; 8287; 12288; 65279]%N)
  || ((8192 <=? c)%N && (c <=? 8202)%N).

(** What [String.prototype.trim] strips: white space and line terminators. *)
Definition isTrimmed (c : N) : bool := isWhiteSpace c || isLineTerminator c.

Fixpoint trimStart (s : list N) : list N :=
  match s with
  | c :: s' => if isTrimmed c then trimStart s' else s
  | [] => []
  end.

Definition trimEnd (s : list N) : list N := reverse (trimStart (reverse s)).

(** [s.trim()] *)
Definition trim (s : list N) : list N := trimEnd (trimStart s).

(** *** Regular expressions

    The fragment of [RegExp] needed for the patterns of the schema: character
    classes, [.], concatenation, [*], [{n}] and negative lookahead.  No flag
    is set on any pattern, so [.] excludes line terminators, [^] and [$]
    match only at the two ends of the input, and [test] keeps no state
    ([lastIndex] is only used under the [g] and [y] flags). *)
Inductive regex :=
| Eps
| Class (ranges : list (ascii * ascii))
| Dot
| Seq (r1 r2 : regex)
| Star (r : regex)
| Repeat (n : nat) (r : regex)
| NotAhead (r : regex).

Definition inClass (ranges : list (ascii * ascii)) (c : N) : bool :=
  existsb (λ '(lo, hi), (N_of_ascii lo <=? c)%N && (c <=? N_of_ascii hi)%N) ranges.

(** Greedy iteration: every way of matching [step] zero or more times, each
    round consuming at least one code unit. *)
Fixpoint star (step : list N → list (list N)) (fuel : nat) (s : list N) : list (list N) :=
  s :: match fuel with
       | 0 => []
       | S k => filter (λ s', length s' < length s) (step s) ≫= star step k
       end.

(** [ends r s]: the inputs left over by each way [r] matches a prefix of [s]. *)
Fixpoint ends (r : regex) (s : list N) : list (list N) :=
  match r with
  | Eps => [s]
  | Class ranges =>
      match s with
      | c :: s' => if inClass ranges c then [s'] else []
      | [] => []
      end
  | Dot =>
      match s with
      | c :: s' => if isLineTerminator c then [] else [s']
      | [] => []
      end
  | Seq r1 r2 => ends r1 s ≫= ends r2
  | Star r' => star (ends r') (length s) s
  | Repeat n r' => Nat.iter n (λ acc, acc ≫= ends r') [s]
  | NotAhead r' => match ends r' s with [] => [s] | _ => [] end
  end.

Definition Chr (c : ascii) : regex := Class [(c, c)].
Definition Plus (r : regex) : regex := Seq r (Star r).
Definition AtLeast (n : nat) (r : regex) : regex := Seq (Repeat n r) (Star r).

(** [/^r$/.test(s)] *)
Definition test (r : regex) (s : list N) : bool :=
  bool_decide ([] ∈ ends r s).

End JS.

(** ** zod *)

Module Zod.

(** A segment of an issue path: an object key or an array index. *)
Inductive seg := Key (k : string) | Idx (i : nat).

#[global] Instance seg_eq_dec : EqDecision seg.
Proof. solve_decision. Defined.

#[global] Instance seg_countable : Countable seg.
Proof.
  refine (inj_countable'
            (λ s, match s with Key k => inl k | Idx i => inr i end)
            (λ x, match x with inl k => Key k | inr i => Idx i end) _).
  by intros [].
Defined.

Record ZodIssue := { path : list seg; message : string }.

(** The pattern behind [z.string().email()], anchored at both ends: not
    starting with a dot and with no two dots in a row (two lookaheads); a
    local part of letters, digits and [_ ' + - .] that ends in a letter, a
    digit or one of [_ + -]; an [@]; one or more labels, each a letter or
    digit followed by letters, digits and [-] and closed by a dot; and a
    last label of two or more letters. *)
Definition emailRegex : JS.regex :=
  let alpha := [("A", "Z"); ("a", "z")]%char in
  let alnum := (alpha ++ [("0", "9")])%char in
  JS.Seq (JS.NotAhead (JS.Chr "."))
  (JS.Seq (JS.NotAhead (JS.Seq (JS.Star JS.Dot) (JS.Seq (JS.Chr ".") (JS.Chr "."))))
  (JS.Seq (JS.Star (JS.Class (alnum ++ [("_", "_"); ("'", "'"); ("+", "+"); ("-", "-"); (".", ".")])%char))
  (JS.Seq (JS.Class (alnum ++ [("_", "_"); ("+", "+"); ("-", "-")])%char)
  (JS.Seq (JS.Chr "@")
  (JS.Seq (JS.Plus (JS.Seq (JS.Class alnum)
                   (JS.Seq (JS.Star (JS.Class (alnum ++ [("-", "-")])%char)) (JS.Chr "."))))
          (JS.AtLeast 2 (JS.Class alpha))))))).

(** The checks chained on [z.string()], each with the message it reports. *)
Inductive check :=
| min (n : nat) (msg : string)
| regex (re : JS.regex) (msg : string)
| email (msg : string)
| refine (p : list N → bool) (msg : string).

Definition passes (c : check) (v : list N) : bool :=
  match c with
  | min n _ => bool_decide (n ≤ length v)
  | regex re _ => JS.test re v
  | email _ => JS.test emailRegex v
  | refine p _ => p v
  end.

Definition msgOf (c : check) : string :=
  match c with
  | min _ msg | regex _ msg | email msg | refine _ msg => msg
  end.

(** [z.string().c1.c2...]: every check runs, in the order it was chained, and
    each failing one adds an issue at the path of the value. *)
Definition z_string (checks : list check) (p : list seg) (v : list N) : list ZodIssue :=
  checks ≫= λ c, if passes c v then [] else [{| path := p; message := msgOf c |}].

(** A property [k] of [z.object({...})]: its schema runs one level down. *)
Definition z_field {A} (k : string) (sch : list seg → A → list ZodIssue)
    (p : list seg) (a : A) : list ZodIssue :=
  sch (p ++ [Key k]) a.

(** [schema.optional()] *)
Definition z_optional {A} (sch : list seg → A → list ZodIssue)
    (p : list seg) (v : option A) : list ZodIssue :=
  match v with
  | Some a => sch p a
  | None => []
  end.

(** [z.array(elem).min(n, msg)]: the length issue at the path of the array,
    then the issues of the elements, each under its index. *)
Definition z_array {A} (elem : list seg → A → list ZodIssue) (n : nat) (msg : string)
    (p : list seg) (l : list A) : list ZodIssue :=
  (if bool_decide (n ≤ length l) then [] else [{| path := p; message := msg |}])
  ++ mjoin (imap (λ i a, elem (p ++ [Idx i]) a) l).

(** The resolver's [parseErrorSchema]: one entry per path, the first issue
    reported at a path wins ([if (!errors[_path]) errors[_path] = ...]).
    The resolver keys the entries by the path joined with dots; no key of
    this schema holds a dot, so the path itself is the key here.  Afterwards
    the resolver nests the entries into an object and files the entry of a
    field array as a whole (here: of [skills], when the list is empty) under
    the key [root] of the array.  That last step is not modelled: the entry
    stays at the path of the array.  The two differ only for an empty skills
    list. *)
Fixpoint parseErrorSchema (zodErrors : list ZodIssue) (errors : gmap (list seg) string)
    : gmap (list seg) string :=
  match zodErrors with
  | [] => errors
  | error :: rest =>
      parseErrorSchema rest
        match errors !! path error with
        | None => <[path error := message error]> errors
        | Some _ => errors
        end
  end.

End Zod.

(** ** @hookform/resolvers/zod *)

Module Resolver.

(** What a resolver hands back to the form: [{ values, errors }]. *)
Record ResolverResult (T : Type) := {
  values : option T;
  errors : gmap (list Zod.seg) string
}.
Arguments values {T} _.
Arguments errors {T} _.

(** [zodResolver(schema)]: the parsed data when the schema reports no issue,
    the error map of its issues otherwise. *)
Definition zodResolver {T} (schema : list Zod.seg → T → list Zod.ZodIssue) (vals : T)
    : ResolverResult T :=
  match schema [] vals with
  | [] => {| values := Some vals; errors := ∅ |}
  | issues => {| values := None; errors := Zod.parseErrorSchema issues ∅ |}
  end.

End Resolver.

(** ** The schema of the form (lines 6-28) *)

Record Skill := { value : list N }.

(** [type FormData = z.infer<typeof schema>] *)
Record FormData := {
  firstName : list N;
  lastName : list N;
  email : list N;
  contact : list N;
  role : list N;
  skills : list Skill;
  message : option (list N)
}.

(** [val => val.trim() !== ""] *)
Definition notBlank (val : list N) : bool :=
  negb (bool_decide (JS.trim val = JS.lit "")).

(** [/^[0-9]{10}$/] *)
Definition tenDigits : JS.regex := JS.Repeat 10 (JS.Class [("0", "9")]%char).

Definition skillSchema (p : list Zod.seg) (s : Skill) : list Zod.ZodIssue :=
  Zod.z_field "value"
    (Zod.z_string [Zod.min 1 "Skill is required";
                   Zod.refine notBlank "Skill cannot be empty spaces"])
    p (value s).

Definition schema (p : list Zod.seg) (data : FormData) : list Zod.ZodIssue :=
  Zod.z_field "firstName"
    (Zod.z_string [Zod.min 1 "First Name is required";
                   Zod.refine notBlank "First Name cannot be empty spaces"])
    p (firstName data)
  ++ Zod.z_field "lastName"
    (Zod.z_string [Zod.min 1 "Last Name is required";
                   Zod.refine notBlank "Last Name cannot be empty spaces"])
    p (lastName data)
  ++ Zod.z_field "email"
    (Zod.z_string [Zod.min 1 "Email is required";
                   Zod.email "Invalid email address"])
    p (email data)
  ++ Zod.z_field "contact"
    (Zod.z_string [Zod.min 1 "Contact number is required";
                   Zod.regex tenDigits "Contact must be 10 digits"])
    p (contact data)
  ++ Zod.z_field "role"
    (Zod.z_string [Zod.min 1 "Role is required"])
    p (role data)
  ++ Zod.z_field "skills"
    (Zod.z_array skillSchema 1 "At least one skill is required")
    p (skills data)
  ++ Zod.z_field "message"
    (Zod.z_optional (Zod.z_string []))
    p (message data).

(** The ValidationResult of a candidate record: the [errors] of the resolver,
    a map from the path of a field to the message shown for it. *)
Definition validate (vals : FormData) : gmap (list Zod.seg) string :=
  Resolver.errors (Resolver.zodResolver schema vals).

(** ** The component (lines 30-167) *)

(** [defaultValues: { skills: [{ value: "" }] }].  The other fields have no
    default; their registered inputs are empty and read back as [""]. *)
Definition defaultValues : FormData := {|
  firstName := JS.lit "";
  lastName := JS.lit "";
  email := JS.lit "";
  contact := JS.lit "";
  role := JS.lit "";
  skills := [ {| value := JS.lit "" |} ];
  message := Some (JS.lit "")
|}.

(** The [value]s of the [<option>]s of the role [<select>] (lines 101-104). *)
Definition roleOptions : list (list N) :=
  [JS.lit ""; JS.lit "student"; JS.lit "developer"; JS.lit "designer"].

(** The state the component holds between two events: the values of the form,
    the [id]s of the [fields] of [useFieldArray] (one per skill, in order),
    and [submittedData].  [formState.errors] is not a component of it: the
    error map of a submit is what [RHF.handleSubmit] returns beside the
    state, and how react-hook-form revises the map on later events is not
    modelled. *)
Record AppState := {
  formValues : FormData;
  fieldIds : list nat;
  nextId : nat;
  submittedData : option FormData
}.

(** [fields]: each skill with its [id]. *)
Definition fields (st : AppState) : list (nat * Skill) :=
  zip (fieldIds st) (skills (formValues st)).

Definition setSkills (l : list Skill) (d : FormData) : FormData := {|
  firstName := firstName d; lastName := lastName d; email := email d;
  contact := contact d; role := role d; skills := l; message := message d
|}.

Module RHF.

(** Modelled from the spec: the ids of [useFieldArray] (react-hook-form's
    [generateId] is not part of the sources).  An id is issued once, from a
    counter that only grows, when an entry is appended or the form is reset. *)
Definition generateId (st : AppState) : nat := nextId st.

(** [append(v)]: one more entry at the end, under a new id. *)
Definition append (v : Skill) (st : AppState) : AppState := {|
  formValues := setSkills (skills (formValues st) ++ [v]) (formValues st);
  fieldIds := fieldIds st ++ [generateId st];
  nextId := S (nextId st);
  submittedData := submittedData st
|}.

(** [remove(index)]: the entry at [index] goes, the others keep their order;
    an index past the end removes nothing. *)
Definition remove (index : nat) (st : AppState) : AppState := {|
  formValues := setSkills (delete index (skills (formValues st))) (formValues st);
  fieldIds := delete index (fieldIds st);
  nextId := nextId st;
  submittedData := submittedData st
|}.

(** [reset()]: back to [defaultValues], the field array rebuilt from them. *)
Definition reset (st : AppState) : AppState := {|
  formValues := defaultValues;
  fieldIds := [generateId st];
  nextId := S (nextId st);
  submittedData := submittedData st
|}.

(** [handleSubmit(onValid)]: the resolver runs on the current values; [onValid]
    is called with the parsed data when it reports no error, and nothing but
    the errors changes otherwise.  Returns the next state and the errors. *)
Definition handleSubmit (onValid : FormData → AppState → AppState) (st : AppState)
    : AppState * gmap (list Zod.seg) string :=
  let result := Resolver.zodResolver schema (formValues st) in
  match Resolver.values result with
  | Some data => (onValid data st, Resolver.errors result)
  | None => (st, Resolver.errors result)
  end.

End RHF.

(** [setSubmittedData(data)] *)
Definition setSubmittedData (data : FormData) (st : AppState) : AppState := {|
  formValues := formValues st;
  fieldIds := fieldIds st;
  nextId := nextId st;
  submittedData := Some data
|}.

(** [onSubmit] (lines 45-48) *)
Definition onSubmit (data : FormData) (st : AppState) : AppState :=
  RHF.reset (setSubmittedData data st).

(** The state after the first render. *)
Definition init : AppState := {|
  formValues := defaultValues;
  fieldIds := [0];
  nextId := 1;
  submittedData := None
|}.

(** The registered text controls besides the skills. *)
Inductive control := FirstName | LastName | Email | Contact | Message.

Definition setControl (c : control) (v : list N) (d : FormData) : FormData :=
  match c with
  | FirstName => {| firstName := v; lastName := lastName d; email := email d;
                    contact := contact d; role := role d; skills := skills d;
                    message := message d |}
  | LastName => {| firstName := firstName d; lastName := v; email := email d;
                   contact := contact d; role := role d; skills := skills d;
                   message := message d |}
  | Email => {| firstName := firstName d; lastName := lastName d; email := v;
                contact := contact d; role := role d; skills := skills d;
                message := message d |}
  | Contact => {| firstName := firstName d; lastName := lastName d; email := email d;
                  contact := v; role := role d; skills := skills d;
                  message := message d |}
  | Message => {| firstName := firstName d; lastName := lastName d; email := email d;
                  contact := contact d; role := role d; skills := skills d;
                  message := Some v |}
  end.

Definition setRole (v : list N) (d : FormData) : FormData := {|
  firstName := firstName d; lastName := lastName d; email := email d;
  contact := contact d; role := v; skills := skills d; message := message d
|}.

Definition setFormValues (d : FormData) (st : AppState) : AppState := {|
  formValues := d;
  fieldIds := fieldIds st;
  nextId := nextId st;
  submittedData := submittedData st
|}.

(** What the user can do to the rendered form. *)
Inductive event :=
| Type_ (c : control) (v : list N)    (* edit a text input or the textarea *)
| SelectRole (k : nat)                (* pick the k-th option of the select *)
| TypeSkill (i : nat) (v : list N)    (* edit the input of skill i *)
| ClickRemove (i : nat)               (* the X button of skill i *)
| ClickAdd                            (* Add Skill *)
| ClickSubmit.                        (* Submit *)

(** One event, on the state without the error map (for Submit, the first
    component of what [RHF.handleSubmit] returns).  The X buttons are
    disabled while [fields.length === 1]
    (line 123); a skill input or option that is not rendered cannot be
    touched.  (The browser's own check of the [type="email"] input can only
    hold a submit event back, which is a run without that event.) *)
Definition step (st : AppState) (e : event) : AppState :=
  match e with
  | Type_ c v => setFormValues (setControl c v (formValues st)) st
  | SelectRole k =>
      match roleOptions !! k with
      | Some v => setFormValues (setRole v (formValues st)) st
      | None => st
      end
  | TypeSkill i v =>
      setFormValues
        (setSkills (<[i := {| value := v |}]> (skills (formValues st))) (formValues st)) st
  | ClickRemove i =>
      if bool_decide (length (fields st) = 1) then st else RHF.remove i st
  | ClickAdd => RHF.append {| value := JS.lit "" |} st
  | ClickSubmit => (RHF.handleSubmit onSubmit st).1
  end.

Definition run (st : AppState) (es : list event) : AppState := foldl step st es.

(** ** Vocabulary of the properties *)

(** The message of the first of [issues] reported at path [p]. *)
Definition firstMessage (p : list Zod.seg) (issues : list Zod.ZodIssue) : option string :=
  Zod.message <$> head (filter (λ i, Zod.path i = p) issues).

(** The first check of a chain, in the order of the chain, that [v] fails. *)
Definition firstFailing (checks : list Zod.check) (v : list N) : option Zod.check :=
  head (filter (λ c, Zod.passes c v = false) checks).

(** A decimal digit, [0] to [9]. *)
Definition isDigit (c : N) : Prop := (48 ≤ c ≤ 57)%N.

(** The enumerated roles the specification names. *)
Definition specRoles : list (list N) :=
  [JS.lit "student"; JS.lit "developer"; JS.lit "designer"].

(** Only white space (an empty value included). *)
Definition blank (v : list N) : Prop := Forall (λ c, JS.isTrimmed c = true) v.

Definition ann : FormData := {|
  firstName := JS.lit "Ann";
  lastName := JS.lit "Lee";
  email := JS.lit "ann@x.com";
  contact := JS.lit "1234567890";
  role := JS.lit "developer";
  skills := [ {| value := JS.lit "Go" |} ];
  message := Some (JS.lit "")
|}.

#[global] Instance blank_dec v : Decision (blank v).
Proof. unfold blank. apply _. Defined.

#[global] Instance isDigit_dec c : Decision (isDigit c).
Proof. unfold isDigit. apply _. Defined.

(** The fields the schema requires, the skills list and each of its entries
    among them. *)
Inductive required :=
| RFirstName | RLastName | REmail | RContact | RRole | RSkills | RSkill (j : nat).

(** Where the error of a required field is reported. *)
Definition pathOf (f : required) : list Zod.seg :=
  match f with
  | RFirstName => [Zod.Key "firstName"]
  | RLastName => [Zod.Key "lastName"]
  | REmail => [Zod.Key "email"]
  | RContact => [Zod.Key "contact"]
  | RRole => [Zod.Key "role"]
  | RSkills => [Zod.Key "skills"]
  | RSkill j => [Zod.Key "skills"; Zod.Idx j; Zod.Key "value"]
  end.


(** The field does not meet the constraint the schema puts on it. *)
Definition fails (f : required) (d : FormData) : Prop :=
  match f with
  | RFirstName => blank (firstName d)
  | RLastName => blank (lastName d)
  | REmail => email d = [] ∨ JS.test Zod.emailRegex (email d) = false
  | RContact => ¬ (length (contact d) = 10 ∧ Forall isDigit (contact d))
  | RRole => role d = []
  | RSkills => skills d = []
  | RSkill j => ∃ s, skills d !! j = Some s ∧ blank (value s)
  end.

(** What holds of the field array in every state the component reaches: one
    id per skill, at least one entry, no id twice, every id already issued. *)
Record wf (st : AppState) : Prop := {
  wf_length : length (fieldIds st) = length (skills (formValues st));
  wf_nonempty : 1 ≤ length (fieldIds st);
  wf_nodup : NoDup (fieldIds st);
  wf_issued : Forall (λ i, i < nextId st) (fieldIds st)
}.

(** The value of the textarea, or none at all ([message] is optional). *)
Definition setMessage (m : option (list N)) (d : FormData) : FormData := {|
  firstName := firstName d; lastName := lastName d; email := email d;
  contact := contact d; role := role d; skills := skills d; message := m
|}.

(** The key a text control is registered under ([register("firstName")], ...). *)
Definition controlPath (c : control) : list Zod.seg :=
  match c with
  | FirstName => [Zod.Key "firstName"]
  | LastName => [Zod.Key "lastName"]
  | Email => [Zod.Key "email"]
  | Contact => [Zod.Key "contact"]
  | Message => [Zod.Key "message"]
  end.

(** What [submittedData] holds was accepted, with a role of the select. *)
Definition submitted_ok (st : AppState) : Prop :=
  role (formValues st) ∈ roleOptions
  ∧ ∀ r, submittedData st = Some r → validate r = ∅ ∧ role r ∈ specRoles.

(** ** Validation as it runs: the RegExp objects of the schema

    The schema holds two objects with state of their own: the RegExp of the
    literal of line 16 and the RegExp behind [.email()].  Both are created
    once, when the module is loaded, and every validation of every record
    goes through the same two objects.  [Run] evaluates the schema over a
    heap that holds them; everything else the checks touch is a string or a
    number, which have no state ([val => val.trim() !== ""] reads its own
    parameter and nothing else). *)

Module Run.

(** A RegExp object with a pattern anchored at both ends, as the two of the
    schema are: the pattern, the [g] and [y] flags and [lastIndex]. *)
Record RegExp := {
  source : JS.regex;
  global : bool;
  sticky : bool;
  lastIndex : nat
}.

Definition setLastIndex (i : nat) (re : RegExp) : RegExp :=
  {| source := source re; global := global re; sticky := sticky re; lastIndex := i |}.

(** [re.test(s)].  Without [g] and [y] the match starts at 0 and [lastIndex]
    is left alone.  With one of them the match starts at [lastIndex], where a
    pattern that begins with [^] can only match if that is 0, and [lastIndex]
    becomes the end of the match, or 0 when there is none. *)
Definition test (re : RegExp) (s : list N) : bool * RegExp :=
  if global re || sticky re then
    if bool_decide (lastIndex re = 0) && JS.test (source re) s
    then (true, setLastIndex (length s) re)
    else (false, setLastIndex 0 re)
  else (JS.test (source re) s, re).

Record heap := {
  contactPattern : RegExp;   (* the literal of line 16 *)
  emailPattern : RegExp      (* zod's own, behind [.email()] *)
}.

Inductive ref := ContactPattern | EmailPattern.

Definition get (r : ref) (h : heap) : RegExp :=
  match r with
  | ContactPattern => contactPattern h
  | EmailPattern => emailPattern h
  end.

Definition set (r : ref) (re : RegExp) (h : heap) : heap :=
  match r with
  | ContactPattern => {| contactPattern := re; emailPattern := emailPattern h |}
  | EmailPattern => {| contactPattern := contactPattern h; emailPattern := re |}
  end.

(** A computation over the heap. *)
Definition M (A : Type) : Type := heap → A * heap.

Definition ret {A} (a : A) : M A := λ h, (a, h).

Definition bind {A B} (m : M A) (f : A → M B) : M B :=
  λ h, let '(a, h') := m h in f a h'.

Notation "'let*' x := m 'in' k" := (bind m (λ x, k))
  (at level 10, x name, m at level 100, k at level 200).

(** The checks chained on [z.string()], the patterns by reference. *)
Inductive check :=
| min (n : nat) (msg : string)
| regex (re : ref) (msg : string)
| refine (p : list N → bool) (msg : string).

(** [.email(msg)] is the check of zod's own pattern. *)
Definition z_email (msg : string) : check := regex EmailPattern msg.

(** One check.  [reset] tells whether zod sets [lastIndex] to 0 before it
    calls [test], as the later versions of it do. *)
Definition passes (reset : bool) (c : check) (v : list N) : M bool :=
  match c with
  | min n _ => ret (bool_decide (n ≤ length v))
  | regex r _ =>
      λ h, let re := if reset then setLastIndex 0 (get r h) else get r h in
           let '(ok, re') := test re v in
           (ok, set r re' h)
  | refine p _ => ret (p v)
  end.

Definition msgOf (c : check) : string :=
  match c with
  | min _ msg | regex _ msg | refine _ msg => msg
  end.

Fixpoint z_string (reset : bool) (checks : list check) (p : list Zod.seg) (v : list N)
    : M (list Zod.ZodIssue) :=
  match checks with
  | [] => ret []
  | c :: checks' =>
      let* ok := passes reset c v in
      let* rest := z_string reset checks' p v in
      ret ((if ok then [] else [{| Zod.path := p; Zod.message := msgOf c |}]) ++ rest)
  end.

Definition z_field {A} (k : string) (sch : list Zod.seg → A → M (list Zod.ZodIssue))
    (p : list Zod.seg) (a : A) : M (list Zod.ZodIssue) :=
  sch (p ++ [Zod.Key k]) a.

Definition z_optional {A} (sch : list Zod.seg → A → M (list Zod.ZodIssue))
    (p : list Zod.seg) (v : option A) : M (list Zod.ZodIssue) :=
  match v with
  | Some a => sch p a
  | None => ret []
  end.

(** The elements of an array, one after the other, from index [i] on. *)
Fixpoint z_elements {A} (elem : list Zod.seg → A → M (list Zod.ZodIssue))
    (p : list Zod.seg) (i : nat) (l : list A) : M (list Zod.ZodIssue) :=
  match l with
  | [] => ret []
  | a :: l' =>
      let* here := elem (p ++ [Zod.Idx i]) a in
      let* rest := z_elements elem p (S i) l' in
      ret (here ++ rest)
  end.

Definition z_array {A} (elem : list Zod.seg → A → M (list Zod.ZodIssue))
    (n : nat) (msg : string) (p : list Zod.seg) (l : list A) : M (list Zod.ZodIssue) :=
  let* rest := z_elements elem p 0 l in
  ret ((if bool_decide (n ≤ length l) then []
        else [{| Zod.path := p; Zod.message := msg |}]) ++ rest).

(** The properties of an object, in the order of its shape. *)
Fixpoint z_object (props : list (M (list Zod.ZodIssue))) : M (list Zod.ZodIssue) :=
  match props with
  | [] => ret []
  | m :: props' =>
      let* here := m in
      let* rest := z_object props' in
      ret (here ++ rest)
  end.

(** The schema of lines 6-26 over the heap. *)
Definition skillSchema (reset : bool) (p : list Zod.seg) (s : Skill)
    : M (list Zod.ZodIssue) :=
  z_field "value"
    (z_string reset [min 1 "Skill is required";
                     refine notBlank "Skill cannot be empty spaces"])
    p (value s).

Definition schema (reset : bool) (p : list Zod.seg) (data : FormData)
    : M (list Zod.ZodIssue) :=
  z_object
    [ z_field "firstName"
        (z_string reset [min 1 "First Name is required";
                         refine notBlank "First Name cannot be empty spaces"])
        p (firstName data);
      z_field "lastName"
        (z_string reset [min 1 "Last Name is required";
                         refine notBlank "Last Name cannot be empty spaces"])
        p (lastName data);
      z_field "email"
        (z_string reset [min 1 "Email is required";
                         z_email "Invalid email address"])
        p (email data);
      z_field "contact"
        (z_string reset [min 1 "Contact number is required";
                         regex ContactPattern "Contact must be 10 digits"])
        p (contact data);
      z_field "role"
        (z_string reset [min 1 "Role is required"])
        p (role data);
      z_field "skills"
        (z_array (skillSchema reset) 1 "At least one skill is required")
        p (skills data);
      z_field "message"
        (z_optional (z_string reset []))
        p (message data) ].

(** [zodResolver(schema)] over the heap. *)
Definition zodResolver (reset : bool) (vals : FormData)
    : M (Resolver.ResolverResult FormData) :=
  let* issues := schema reset [] vals in
  ret match issues with
      | [] => {| Resolver.values := Some vals; Resolver.errors := ∅ |}
      | _ => {| Resolver.values := None;
                Resolver.errors := Zod.parseErrorSchema issues ∅ |}
      end.

(** One validation after the other, each on the heap the one before left. *)
Fixpoint validateAll (reset : bool) (records : list FormData)
    : M (list (gmap (list Zod.seg) string)) :=
  match records with
  | [] => ret []
  | d :: records' =>
      let* r := zodResolver reset d in
      let* rest := validateAll reset records' in
      ret (Resolver.errors r :: rest)
  end.

(** The heap once the module is loaded: the literal of line 16 carries no
    flag, zod's pattern none that [test] looks at, and a new RegExp has
    [lastIndex] 0. *)
Definition loaded : heap := {|
  contactPattern := {| source := tenDigits; global := false; sticky := false;
                       lastIndex := 0 |};
  emailPattern := {| source := Zod.emailRegex; global := false; sticky := false;
                     lastIndex := 0 |}
|}.

(** The same two objects with other values of [lastIndex]. *)
Definition loadedAt (i j : nat) : heap := {|
  contactPattern := setLastIndex i (contactPattern loaded);
  emailPattern := setLastIndex j (emailPattern loaded)
|}.

(** The heap a contact pattern written with the [g] flag would give. *)
Definition loadedGlobal : heap := {|
  contactPattern := {| source := tenDigits; global := true; sticky := false;
                       lastIndex := 0 |};
  emailPattern := emailPattern loaded
|}.

(** The pure check a check stands for on the loaded heap. *)
Definition erase (c : check) : Zod.check :=
  match c with
  | min n msg => Zod.min n msg
  | regex ContactPattern msg => Zod.regex tenDigits msg
  | regex EmailPattern msg => Zod.email msg
  | refine p msg => Zod.refine p msg
  end.

End Run.

(** ** The model at work *)

Example trim_spaces : JS.trim (JS.lit "  a b  ") = JS.lit "a b".
Proof. reflexivity. Qed.

Example trim_unicode : JS.trim [160; 10; 8195; 65; 12288; 9]%N = [65]%N.
Proof. reflexivity. Qed.

Example email_shapes :
  JS.test Zod.emailRegex <$>
    [JS.lit "ann@x.com"; JS.lit "a.b'c+d@x-y.z0.co"; JS.lit ""; JS.lit "ann";
     JS.lit "ann@x"; JS.lit "ann@x.c"; JS.lit ".ann@x.com"; JS.lit "a..n@x.com";
     JS.lit "ann.@x.com"; JS.lit "ann@-x.com"]
  = [true; true; false; false; false; false; false; false; false; false].
Proof. vm_compute. reflexivity. Qed.

Example schema_ann : schema [] ann = [].
Proof. vm_compute. reflexivity. Qed.

Example schema_defaultValues :
  Zod.message <$> schema [] defaultValues
  = ["First Name is required"; "First Name cannot be empty spaces";
     "Last Name is required"; "Last Name cannot be empty spaces";
     "Email is required"; "Invalid email address";
     "Contact number is required"; "Contact must be 10 digits";
     "Role is required";
     "Skill is required"; "Skill cannot be empty spaces"]%string.
Proof. vm_compute. reflexivity. Qed.

Example submit_ann :
  run init [Type_ FirstName (JS.lit "Ann"); Type_ LastName (JS.lit "Lee");
            Type_ Email (JS.lit "ann@x.com"); Type_ Contact (JS.lit "1234567890");
            SelectRole 2; TypeSkill 0 (JS.lit "Go"); ClickSubmit]
  = {| formValues := defaultValues; fieldIds := [1]; nextId := 2;
       submittedData := Some ann |}.
Proof. vm_compute. reflexivity. Qed.

(** ** JavaScript strings: trimming and the digit pattern *)

Section trimming.

Lemma trimStart_nil_iff s : JS.trimStart s = [] ↔ blank s.
Proof.
  unfold blank. induction s as [|c s IH]; simpl.
  - split; [constructor | done].
  - destruct (JS.isTrimmed c) eqn:Hc.
    + rewrite IH. split; [by constructor | by inversion 1].
    + split; [done | inversion 1; congruence].
Qed.

Lemma trimStart_head s :
  JS.trimStart s = [] ∨ ∃ c t, JS.trimStart s = c :: t ∧ JS.isTrimmed c = false.
Proof.
  induction s as [|c s IH]; simpl; [by left |].
  destruct (JS.isTrimmed c) eqn:Hc; [done | right; eauto].
Qed.

Lemma blank_trimStart s : blank (JS.trimStart s) ↔ blank s.
Proof.
  rewrite <- (trimStart_nil_iff s). split.
  - destruct (trimStart_head s) as [-> | (c & t & -> & Hc)]; [done |].
    inversion 1; congruence.
  - intros ->. constructor.
Qed.

Lemma trim_nil_iff s : JS.trim s = [] ↔ blank s.
Proof.
  unfold JS.trim, JS.trimEnd.
  transitivity (JS.trimStart (reverse (JS.trimStart s)) = []).
  { split; [| by intros ->].
    intros H. apply (f_equal reverse) in H. by rewrite reverse_involutive in H. }
  rewrite trimStart_nil_iff. unfold blank at 1. rewrite Forall_reverse.
  apply blank_trimStart.
Qed.

Lemma notBlank_false v : notBlank v = false ↔ blank v.
Proof.
  unfold notBlank. rewrite negb_false_iff, bool_decide_eq_true.
  apply trim_nil_iff.
Qed.

Lemma notBlank_true v : notBlank v = true ↔ ¬ blank v.
Proof.
  rewrite <- notBlank_false. destruct (notBlank v); naive_solver.
Qed.

Lemma blank_nil : blank [].
Proof. constructor. Qed.

End trimming.

Section patterns.

Lemma bind_singleton {A B} (f : A → list B) (x : A) : [x] ≫= f = f x.
Proof. simpl. apply app_nil_r. Qed.

Lemma ends_Repeat_Class n ranges s :
  JS.ends (JS.Repeat n (JS.Class ranges)) s =
    if decide (n ≤ length s ∧ Forall (λ c, JS.inClass ranges c = true) (take n s))
    then [drop n s] else [].
Proof.
  induction n as [|n IH].
  - rewrite decide_True; [by rewrite drop_0 | split; [lia | by rewrite take_0]].
  - change (JS.ends (JS.Repeat (S n) (JS.Class ranges)) s)
      with (JS.ends (JS.Repeat n (JS.Class ranges)) s ≫= JS.ends (JS.Class ranges)).
    rewrite IH. destruct (decide (n ≤ length s ∧ _)) as [[Hn Hall]|Hno].
    + rewrite bind_singleton. simpl.
      destruct (s !! n) as [c|] eqn:Hc.
      * rewrite (drop_S _ _ _ Hc), (take_S_r _ _ _ Hc).
        apply lookup_lt_Some in Hc as Hlt.
        destruct (JS.inClass ranges c) eqn:Hin.
        -- rewrite decide_True; [done |].
           split; [lia |]. apply Forall_app. by repeat constructor.
        -- rewrite decide_False; [done |].
           intros [_ H]. apply Forall_app in H as [_ H].
           inversion H; congruence.
      * apply lookup_ge_None in Hc.
        rewrite drop_ge by lia. rewrite decide_False; [done | lia].
    + simpl. rewrite decide_False; [done |].
      intros [Hn H]. apply Hno. split; [lia |].
      destruct (s !! n) as [c|] eqn:Hc.
      * rewrite (take_S_r _ _ _ Hc) in H. by apply Forall_app in H as [H _].
      * apply lookup_ge_None in Hc. lia.
Qed.

Lemma inClass_digit c : JS.inClass [("0", "9")]%char c = true ↔ isDigit c.
Proof.
  unfold JS.inClass, isDigit. simpl. rewrite orb_false_r, andb_true_iff.
  rewrite !N.leb_le. done.
Qed.

(** The contact pattern accepts exactly the strings of ten decimal digits. *)
Lemma test_tenDigits s :
  JS.test tenDigits s = true ↔ length s = 10 ∧ Forall isDigit s.
Proof.
  assert (Hd : ∀ l, Forall (λ c, JS.inClass [("0", "9")]%char c = true) l
                    ↔ Forall isDigit l)
    by (intros l; apply Forall_iff, inClass_digit).
  unfold JS.test, tenDigits. rewrite bool_decide_eq_true, ends_Repeat_Class.
  destruct (decide _) as [[Hn Hall]|Hno].
  - rewrite list_elem_of_singleton. split.
    + intros H. symmetry in H. apply drop_nil_inv in H.
      assert (length s = 10) by lia. split; [done |].
      apply Hd. by rewrite take_ge in Hall by lia.
    + intros [Hlen _]. symmetry. apply drop_ge. lia.
  - split; [by intros ?%elem_of_nil |].
    intros [Hlen H]. exfalso. apply Hno. split; [lia |].
    rewrite take_ge by lia. by apply Hd.
Qed.

End patterns.
(** ** Issues and the error map *)

Section issues.

Implicit Types (p q : list Zod.seg) (l : list Zod.ZodIssue).

Lemma firstMessage_nil p : firstMessage p [] = None.
Proof. done. Qed.

Lemma firstMessage_cons p i l :
  firstMessage p (i :: l) =
    if decide (Zod.path i = p) then Some (Zod.message i) else firstMessage p l.
Proof.
  unfold firstMessage. rewrite filter_cons. by destruct (decide _).
Qed.

Lemma firstMessage_app p l1 l2 :
  firstMessage p (l1 ++ l2) =
    match firstMessage p l1 with
    | Some m => Some m
    | None => firstMessage p l2
    end.
Proof.
  induction l1 as [|i l1 IH]; [done |].
  rewrite <- app_comm_cons, !firstMessage_cons. by destruct (decide _).
Qed.

Lemma firstMessage_None p l :
  firstMessage p l = None ↔ Forall (λ i, Zod.path i ≠ p) l.
Proof.
  induction l as [|i l IH]; [by split; [constructor |] |].
  rewrite firstMessage_cons, Forall_cons, <- IH.
  destruct (decide _); [split; [done | by intros []] | tauto].
Qed.

Lemma firstMessage_Some_elem p l m :
  firstMessage p l = Some m → {| Zod.path := p; Zod.message := m |} ∈ l.
Proof.
  induction l as [|[q m'] l IH]; [done |].
  rewrite firstMessage_cons. simpl. destruct (decide _) as [->|].
  - intros [= ->]. left.
  - right. auto.
Qed.

(** The error map holds, at every path, the first message reported there. *)
Lemma parseErrorSchema_lookup l (errors : gmap (list Zod.seg) string) p :
  Zod.parseErrorSchema l errors !! p =
    match errors !! p with
    | Some m => Some m
    | None => firstMessage p l
    end.
Proof.
  revert errors. induction l as [|i l IH]; intros errors; simpl.
  - by destruct (errors !! p).
  - rewrite IH, firstMessage_cons.
    destruct (errors !! Zod.path i) eqn:Hi.
    + destruct (errors !! p) eqn:Hp; [done |].
      rewrite decide_False; [done | congruence].
    + rewrite lookup_insert. destruct (decide (Zod.path i = p)) as [Heq|]; [| done].
      by rewrite <- Heq, Hi.
Qed.

Lemma validate_lookup d p : validate d !! p = firstMessage p (schema [] d).
Proof.
  unfold validate, Resolver.zodResolver.
  destruct (schema [] d) as [|i l] eqn:Hs; cbn [Resolver.errors].
  - apply lookup_empty.
  - by rewrite parseErrorSchema_lookup, lookup_empty.
Qed.

Lemma validate_empty d : validate d = ∅ ↔ schema [] d = [].
Proof.
  split.
  - intros H. destruct (schema [] d) as [|i l] eqn:Hs; [done |].
    assert (validate d !! Zod.path i = None) as Hi by (by rewrite H).
    rewrite validate_lookup, Hs, firstMessage_cons, decide_True in Hi; done.
  - intros H. unfold validate, Resolver.zodResolver. by rewrite H.
Qed.

Lemma resolver_values d :
  Resolver.values (Resolver.zodResolver schema d) =
    if decide (validate d = ∅) then Some d else None.
Proof.
  destruct (decide _) as [H|H]; rewrite validate_empty in H;
    unfold Resolver.zodResolver; destruct (schema [] d); done.
Qed.

Lemma z_string_cons c checks q v :
  Zod.z_string (c :: checks) q v =
    (if Zod.passes c v then []
     else [{| Zod.path := q; Zod.message := Zod.msgOf c |}])
    ++ Zod.z_string checks q v.
Proof. done. Qed.

(** A chain of string checks reports at its own path only, and first the
    message of the first check that fails. *)
Lemma firstMessage_z_string checks p q v :
  firstMessage p (Zod.z_string checks q v) =
    if decide (q = p) then Zod.msgOf <$> firstFailing checks v else None.
Proof.
  unfold firstFailing.
  induction checks as [|c checks IH]; [by destruct (decide _) |].
  rewrite z_string_cons, firstMessage_app, IH, filter_cons.
  destruct (Zod.passes c v) eqn:Hc.
  - by rewrite (decide_False (P := true = false)).
  - rewrite firstMessage_cons, (decide_True (P := false = false)) by done.
    simpl. by destruct (decide (q = p)).
Qed.

End issues.

Section arrays.

Implicit Types (p q : list Zod.seg).

Lemma mjoin_cons {A} (x : list A) (xs : list (list A)) :
  mjoin (x :: xs) = x ++ mjoin xs.
Proof. done. Qed.

Lemma firstMessage_imap_None {A} (f : nat → A → list Zod.ZodIssue) p (l : list A) :
  (∀ i a, firstMessage p (f i a) = None) →
  firstMessage p (mjoin (imap f l)) = None.
Proof.
  revert f. induction l as [|a l IH]; intros f Hf; [done |].
  rewrite imap_cons, mjoin_cons, firstMessage_app, Hf. apply IH.
  intros i b. apply Hf.
Qed.

(** Among the issues of the elements of an array, those at a path that only
    element [j] can report are the issues of element [j]. *)
Lemma firstMessage_imap {A} (f : nat → A → list Zod.ZodIssue) p (l : list A) j :
  (∀ i a, i ≠ j → firstMessage p (f i a) = None) →
  firstMessage p (mjoin (imap f l)) =
    match l !! j with
    | Some a => firstMessage p (f j a)
    | None => None
    end.
Proof.
  revert f j. induction l as [|a l IH]; intros f j Hf; [done |].
  rewrite imap_cons, mjoin_cons, firstMessage_app. destruct j as [|j]; simpl.
  - destruct (firstMessage p (f 0 a)); [done |].
    apply firstMessage_imap_None. intros i b. by apply Hf.
  - rewrite Hf by done. rewrite (IH (f ∘ S) j); [done |].
    intros i b Hi. apply Hf. lia.
Qed.

Lemma app_ne_self q (r : list Zod.seg) : r ≠ [] → q ++ r ≠ q.
Proof.
  intros Hr H. apply (f_equal length) in H. rewrite length_app in H.
  destruct r; [done | simpl in H; lia].
Qed.

Lemma firstMessage_skillSchema p q s :
  firstMessage p (skillSchema q s) =
    if decide (q ++ [Zod.Key "value"] = p)
    then Zod.msgOf <$> firstFailing
           [Zod.min 1 "Skill is required";
            Zod.refine notBlank "Skill cannot be empty spaces"] (value s)
    else None.
Proof. apply firstMessage_z_string. Qed.

Lemma z_array_unfold {A} (elem : list Zod.seg → A → list Zod.ZodIssue) n msg q l :
  Zod.z_array elem n msg q l =
    (if bool_decide (n ≤ length l) then []
     else [{| Zod.path := q; Zod.message := msg |}])
    ++ mjoin (imap (λ i a, elem (q ++ [Zod.Idx i]) a) l).
Proof. done. Qed.

(** At the path of the array: the length issue. *)
Lemma firstMessage_z_array_self q n msg l :
  firstMessage q (Zod.z_array skillSchema n msg q l) =
    if decide (n ≤ length l) then None else Some msg.
Proof.
  rewrite z_array_unfold, firstMessage_app.
  rewrite firstMessage_imap_None.
  - destruct (decide _); [by rewrite bool_decide_eq_true_2 |].
    rewrite bool_decide_eq_false_2 by done.
    rewrite firstMessage_cons. simpl. by rewrite decide_True.
  - intros i s. rewrite firstMessage_skillSchema, decide_False; [done |].
    rewrite <- (assoc (++)). by apply app_ne_self.
Qed.

(** At the path of the value of entry [j]: the issues of that entry. *)
Lemma firstMessage_z_array_entry q n msg l j :
  firstMessage (q ++ [Zod.Idx j; Zod.Key "value"])
               (Zod.z_array skillSchema n msg q l) =
    s ← l !! j;
    Zod.msgOf <$> firstFailing
      [Zod.min 1 "Skill is required";
       Zod.refine notBlank "Skill cannot be empty spaces"] (value s).
Proof.
  rewrite z_array_unfold, firstMessage_app.
  assert (firstMessage (q ++ [Zod.Idx j; Zod.Key "value"])
            (if bool_decide (n ≤ length l) then []
             else [{| Zod.path := q; Zod.message := msg |}]) = None) as ->.
  { destruct (bool_decide _); [done |]. rewrite firstMessage_cons. simpl.
    rewrite decide_False; [done |]. intros H. symmetry in H.
    by apply app_ne_self in H. }
  rewrite (firstMessage_imap _ _ _ j).
  - destruct (l !! j) as [s|]; [| done]. simpl.
    rewrite firstMessage_skillSchema, decide_True; [done |].
    by rewrite <- (assoc (++)).
  - intros i s Hi. rewrite firstMessage_skillSchema, decide_False; [done |].
    rewrite <- (assoc (++)). intros H. apply app_inv_head in H. simpl in H. congruence.
Qed.

(** Anywhere else: nothing. *)
Lemma firstMessage_z_array_other p q n msg l :
  p ≠ q → (∀ j, p ≠ q ++ [Zod.Idx j; Zod.Key "value"]) →
  firstMessage p (Zod.z_array skillSchema n msg q l) = None.
Proof.
  intros Hq Hj. rewrite z_array_unfold, firstMessage_app.
  rewrite firstMessage_imap_None.
  - destruct (bool_decide _); [done |]. rewrite firstMessage_cons. simpl.
    by rewrite decide_False.
  - intros i s. rewrite firstMessage_skillSchema, decide_False; [done |].
    rewrite <- (assoc (++)). intros H. by apply (Hj i).
Qed.

End arrays.

(** ** The error map of the form, field by field *)

Section fields.

Lemma firstMessage_message p q v :
  firstMessage p (Zod.z_optional (Zod.z_string []) q v) = None.
Proof. by destruct v. Qed.

Ltac at_path :=
  rewrite validate_lookup; unfold schema, Zod.z_field; cbn [app];
  rewrite !firstMessage_app, !firstMessage_z_string, firstMessage_message.

Ltac other_paths :=
  repeat first
    [ rewrite (decide_False (P := _ = _)) by done
    | rewrite (decide_True (P := _ = _)) by done ].

Lemma validate_firstName d :
  validate d !! [Zod.Key "firstName"] =
    Zod.msgOf <$> firstFailing
      [Zod.min 1 "First Name is required";
       Zod.refine notBlank "First Name cannot be empty spaces"] (firstName d).
Proof.
  at_path. other_paths. rewrite firstMessage_z_array_other by done.
  by destruct (_ <$> firstFailing _ _).
Qed.

Lemma validate_lastName d :
  validate d !! [Zod.Key "lastName"] =
    Zod.msgOf <$> firstFailing
      [Zod.min 1 "Last Name is required";
       Zod.refine notBlank "Last Name cannot be empty spaces"] (lastName d).
Proof.
  at_path. other_paths. rewrite firstMessage_z_array_other by done.
  by destruct (_ <$> firstFailing _ _).
Qed.

Lemma validate_email d :
  validate d !! [Zod.Key "email"] =
    Zod.msgOf <$> firstFailing
      [Zod.min 1 "Email is required";
       Zod.email "Invalid email address"] (email d).
Proof.
  at_path. other_paths. rewrite firstMessage_z_array_other by done.
  by destruct (_ <$> firstFailing _ _).
Qed.

Lemma validate_contact d :
  validate d !! [Zod.Key "contact"] =
    Zod.msgOf <$> firstFailing
      [Zod.min 1 "Contact number is required";
       Zod.regex tenDigits "Contact must be 10 digits"] (contact d).
Proof.
  at_path. other_paths. rewrite firstMessage_z_array_other by done.
  by destruct (_ <$> firstFailing _ _).
Qed.

Lemma validate_role d :
  validate d !! [Zod.Key "role"] =
    Zod.msgOf <$> firstFailing [Zod.min 1 "Role is required"] (role d).
Proof.
  at_path. other_paths. rewrite firstMessage_z_array_other by done.
  by destruct (_ <$> firstFailing _ _).
Qed.

Lemma validate_skills d :
  validate d !! [Zod.Key "skills"] =
    if decide (1 ≤ length (skills d)) then None
    else Some "At least one skill is required"%string.
Proof.
  at_path. other_paths. rewrite firstMessage_z_array_self.
  by destruct (decide _).
Qed.

Lemma validate_skill d j :
  validate d !! [Zod.Key "skills"; Zod.Idx j; Zod.Key "value"] =
    s ← skills d !! j;
    Zod.msgOf <$> firstFailing
      [Zod.min 1 "Skill is required";
       Zod.refine notBlank "Skill cannot be empty spaces"] (value s).
Proof.
  at_path. other_paths.
  pose proof (firstMessage_z_array_entry [Zod.Key "skills"] 1
                "At least one skill is required" (skills d) j) as H.
  cbn [app] in H. rewrite H. by destruct (_ ≫= _).
Qed.

(** No other path ever carries an error. *)
Lemma validate_elsewhere d p :
  p ∉ [[Zod.Key "firstName"]; [Zod.Key "lastName"]; [Zod.Key "email"];
       [Zod.Key "contact"]; [Zod.Key "role"]; [Zod.Key "skills"]] →
  (∀ j, p ≠ [Zod.Key "skills"; Zod.Idx j; Zod.Key "value"]) →
  validate d !! p = None.
Proof.
  intros Hp Hj. rewrite !not_elem_of_cons in Hp.
  destruct Hp as (? & ? & ? & ? & ? & ? & _).
  at_path. other_paths. by rewrite firstMessage_z_array_other.
Qed.

End fields.

(** ** Chains of checks *)

Section chains.

Lemma firstFailing_cons c checks v :
  firstFailing (c :: checks) v =
    if Zod.passes c v then firstFailing checks v else Some c.
Proof.
  unfold firstFailing. rewrite filter_cons.
  destruct (Zod.passes c v).
  - by rewrite (decide_False (P := true = false)).
  - by rewrite (decide_True (P := false = false)).
Qed.

(** The first failing check: the checks before it pass, it does not. *)
Lemma firstFailing_middle pre c post v :
  Forall (λ c', Zod.passes c' v = true) pre → Zod.passes c v = false →
  firstFailing (pre ++ c :: post) v = Some c.
Proof.
  intros Hpre Hc. induction Hpre as [|c' pre Hc' _ IH]; simpl.
  - by rewrite firstFailing_cons, Hc.
  - by rewrite firstFailing_cons, Hc'.
Qed.

Lemma firstFailing_None checks v :
  firstFailing checks v = None ↔ Forall (λ c, Zod.passes c v = true) checks.
Proof.
  induction checks as [|c checks IH]; [by split; [constructor |] |].
  rewrite firstFailing_cons, Forall_cons, <- IH.
  destruct (Zod.passes c v); [tauto | split; [done | by intros []]].
Qed.

Lemma min_1_passes msg v : Zod.passes (Zod.min 1 msg) v = bool_decide (v ≠ []).
Proof.
  simpl. apply bool_decide_ext. destruct v; simpl; [split; [lia | done] |].
  split; [done | lia].
Qed.

(** The chain of the two names and of a skill: required, then not blank. *)
Lemma required_notBlank a b v :
  Zod.msgOf <$> firstFailing [Zod.min 1 a; Zod.refine notBlank b] v =
    if decide (v = []) then Some a
    else if decide (blank v) then Some b else None.
Proof.
  rewrite !firstFailing_cons, min_1_passes.
  destruct (decide (v = [])) as [->|Hv].
  - by rewrite bool_decide_eq_false_2 by naive_solver.
  - rewrite bool_decide_eq_true_2 by done. cbn [Zod.passes].
    destruct (decide (blank v)) as [Hb|Hb].
    + apply notBlank_false in Hb. by rewrite Hb.
    + apply notBlank_true in Hb. by rewrite Hb.
Qed.

(** Whether such a chain reports anything only depends on blankness. *)
Lemma required_notBlank_is_Some a b v :
  is_Some (Zod.msgOf <$> firstFailing [Zod.min 1 a; Zod.refine notBlank b] v)
  ↔ blank v.
Proof.
  rewrite required_notBlank. destruct (decide (v = [])) as [->|].
  - split; [intros _; apply blank_nil | eauto].
  - destruct (decide (blank v)); [split; eauto |].
    split; [by intros [? ?] | done].
Qed.

Lemma required_email a b v :
  Zod.msgOf <$> firstFailing [Zod.min 1 a; Zod.email b] v =
    if decide (v = []) then Some a
    else if JS.test Zod.emailRegex v then None else Some b.
Proof.
  rewrite !firstFailing_cons, min_1_passes.
  destruct (decide (v = [])) as [->|Hv].
  - by rewrite bool_decide_eq_false_2 by naive_solver.
  - rewrite bool_decide_eq_true_2 by done. cbn [Zod.passes].
    by destruct (JS.test _ _).
Qed.

Lemma required_regex a b re v :
  Zod.msgOf <$> firstFailing [Zod.min 1 a; Zod.regex re b] v =
    if decide (v = []) then Some a
    else if JS.test re v then None else Some b.
Proof.
  rewrite !firstFailing_cons, min_1_passes.
  destruct (decide (v = [])) as [->|Hv].
  - by rewrite bool_decide_eq_false_2 by naive_solver.
  - rewrite bool_decide_eq_true_2 by done. cbn [Zod.passes].
    by destruct (JS.test _ _).
Qed.

Lemma required_only a v :
  Zod.msgOf <$> firstFailing [Zod.min 1 a] v =
    if decide (v = []) then Some a else None.
Proof.
  rewrite !firstFailing_cons, min_1_passes.
  destruct (decide (v = [])) as [->|Hv].
  - by rewrite bool_decide_eq_false_2 by naive_solver.
  - by rewrite bool_decide_eq_true_2 by done.
Qed.

End chains.

(** ** Submission *)

Section submission.

(** What [handleSubmit] does, in terms of the error map. *)
Lemma handleSubmit_spec onValid st :
  RHF.handleSubmit onValid st =
    (if decide (validate (formValues st) = ∅)
     then onValid (formValues st) st else st,
     validate (formValues st)).
Proof.
  unfold RHF.handleSubmit. rewrite resolver_values.
  by destruct (decide _).
Qed.

Lemma handleSubmit_rejected onValid st p m :
  validate (formValues st) !! p = Some m →
  RHF.handleSubmit onValid st = (st, validate (formValues st)).
Proof.
  intros H. rewrite handleSubmit_spec, decide_False; [done |].
  intros He. by rewrite He in H.
Qed.

Lemma handleSubmit_accepted st :
  validate (formValues st) = ∅ →
  RHF.handleSubmit onSubmit st =
    ({| formValues := defaultValues; fieldIds := [nextId st];
        nextId := S (nextId st); submittedData := Some (formValues st) |}, ∅).
Proof.
  intros H. by rewrite handleSubmit_spec, decide_True, H.
Qed.

(** Every message of the schema has some text. *)
Lemma message_nonempty d p m : validate d !! p = Some m → m ≠ ""%string.
Proof.
  rewrite validate_lookup. intros H%firstMessage_Some_elem.
  unfold schema, Zod.z_field in H. cbn [app] in H.
  rewrite !elem_of_app in H.
  assert (∀ checks q v,
    Forall (λ c, Zod.msgOf c ≠ ""%string) checks →
    {| Zod.path := p; Zod.message := m |} ∈ Zod.z_string checks q v →
    m ≠ ""%string) as Hstr.
  { intros checks q v Hall Hin. unfold Zod.z_string in Hin.
    apply list_elem_of_bind in Hin as (c & Hin & Hc).
    rewrite Forall_forall in Hall. specialize (Hall c Hc).
    destruct (Zod.passes c v); [by apply elem_of_nil in Hin |].
    apply list_elem_of_singleton in Hin. by injection Hin as _ ->. }
  destruct H as [H|[H|[H|[H|[H|[H|H]]]]]].
  1-5: by eapply Hstr; [| exact H]; repeat constructor.
  - rewrite z_array_unfold, elem_of_app in H. destruct H as [H|H].
    + destruct (bool_decide _); [by apply elem_of_nil in H |].
      apply list_elem_of_singleton in H. by injection H as _ ->.
    + apply list_elem_of_join in H as (l & H & Hl).
      apply elem_of_lookup_imap in Hl as (j & s & -> & _).
      by eapply Hstr; [| exact H]; repeat constructor.
  - destruct (message d); [| by apply elem_of_nil in H].
    by apply elem_of_nil in H.
Qed.

End submission.

(** ** The states the component reaches *)

Section reachable.

Lemma wf_init : wf init.
Proof. split; simpl; [done | lia | apply NoDup_singleton | repeat constructor]. Qed.

Lemma length_fields st : wf st → length (fields st) = length (fieldIds st).
Proof.
  intros [Hlen _ _ _]. unfold fields. rewrite length_zip_with. lia.
Qed.

Lemma wf_reset st : wf (RHF.reset st).
Proof.
  split; simpl; [done | lia | apply NoDup_singleton |].
  repeat constructor.
Qed.

Lemma length_delete_total {A} (l : list A) i :
  length (delete i l) = if decide (i < length l) then length l - 1 else length l.
Proof.
  revert i. induction l as [|x l IH]; intros [|i]; simpl; try done.
  - lia.
  - rewrite IH. destruct l; simpl; [done |].
    repeat case_decide; lia.
Qed.

Lemma wf_step st e : wf st → wf (step st e).
Proof.
  intros Hwf. pose proof Hwf as [Hlen Hne Hnd Hiss].
  destruct e as [c v|k|i v|i| |]; simpl.
  - by destruct c.
  - by destruct (roleOptions !! k).
  - split; simpl; [by rewrite length_insert | done..].
  - case_bool_decide as H1; [done |].
    rewrite length_fields in H1 by done.
    split; simpl.
    + rewrite !length_delete_total. by rewrite Hlen.
    + rewrite length_delete_total. case_decide; lia.
    + eapply sublist_NoDup; [done | apply sublist_delete].
    + by apply Forall_delete.
  - split; simpl.
    + rewrite !length_app. simpl. lia.
    + rewrite length_app. simpl. lia.
    + apply NoDup_app. split; [done |]. split; [| apply NoDup_singleton].
      intros x Hx ->%list_elem_of_singleton.
      rewrite Forall_forall in Hiss. specialize (Hiss _ Hx).
      unfold RHF.generateId in Hiss. lia.
    + apply Forall_app. split.
      * eapply Forall_impl; [done |]. simpl. lia.
      * constructor; [unfold RHF.generateId; lia | constructor].
  - rewrite handleSubmit_spec. simpl. destruct (decide _); [| done].
    apply wf_reset.
Qed.

Lemma wf_run st es : wf st → wf (run st es).
Proof.
  revert st. induction es as [|e es IH]; intros st Hwf; [done |].
  apply IH, wf_step, Hwf.
Qed.

Lemma nextId_step st e : nextId st ≤ nextId (step st e).
Proof.
  destruct e as [c v|k|i v|i| |]; simpl; try lia.
  - by destruct (roleOptions !! k).
  - by case_bool_decide.
  - rewrite handleSubmit_spec. simpl. destruct (decide _); simpl; lia.
Qed.

Lemma nextId_run st es : nextId st ≤ nextId (run st es).
Proof.
  revert st. induction es as [|e es IH]; intros st; simpl; [lia |].
  etrans; [apply nextId_step | apply IH].
Qed.

Lemma run_app st es1 es2 : run st (es1 ++ es2) = run (run st es1) es2.
Proof. apply foldl_app. Qed.

(** The select only ever holds one of its options. *)
Lemma role_step st e :
  role (formValues st) ∈ roleOptions → role (formValues (step st e)) ∈ roleOptions.
Proof.
  intros H. destruct e as [c v|k|i v|i| |]; simpl; try done.
  - by destruct c.
  - destruct (roleOptions !! k) as [v|] eqn:Hk; [| done].
    simpl. by eapply list_elem_of_lookup_2.
  - by case_bool_decide.
  - rewrite handleSubmit_spec. simpl. destruct (decide _); [| done].
    simpl. left.
Qed.

Lemma role_run es : role (formValues (run init es)) ∈ roleOptions.
Proof.
  assert (∀ st, role (formValues st) ∈ roleOptions →
                role (formValues (run st es)) ∈ roleOptions) as H.
  { induction es as [|e es IH]; intros st Hst; [done |].
    apply IH, role_step, Hst. }
  apply H. left.
Qed.

Lemma fields_remove i st :
  fields (RHF.remove i st) = delete i (fields st).
Proof.
  unfold fields. simpl.
  generalize (fieldIds st) (skills (formValues st)). clear st.
  induction i as [|i IH]; intros [|x xs] [|y ys]; simpl; try done.
  - by destruct xs.
  - f_equal. apply IH.
Qed.

End reachable.

(** ** The properties of the specification *)

(** C1, as the code has it.  The schema asks of [role] only that it is not
    empty: the role field is valid exactly when its value is non-empty.  The
    empty (unselected) value yields the error "Role is required"; the three
    enumerated roles are valid; and so is any other non-empty string, such as
    "manager".  The enumeration lives in the options of the select: a value
    offered there is valid exactly when it is one of the three roles, and the
    select of the running form never holds anything but one of its options. *)
Theorem role_valid_iff_nonempty (d : FormData) (es : list event) :
  (validate d !! [Zod.Key "role"] = None ↔ role d ≠ [])
  ∧ (role d ∈ roleOptions →
     (validate d !! [Zod.Key "role"] = None ↔ role d ∈ specRoles))
  ∧ (role d ∈ specRoles → validate d !! [Zod.Key "role"] = None)
  ∧ validate (setRole (JS.lit "") d) !! [Zod.Key "role"]
    = Some "Role is required"%string
  ∧ validate (setRole (JS.lit "manager") d) !! [Zod.Key "role"] = None
  ∧ role (formValues (run init es)) ∈ roleOptions.
Proof.
  assert (validate d !! [Zod.Key "role"] = None ↔ role d ≠ []) as Hiff.
  { rewrite validate_role, required_only. by destruct (decide _). }
  assert (∀ r, r ∈ specRoles → r ≠ []) as Hspec.
  { intros r Hr ->. unfold specRoles in Hr.
    repeat (apply elem_of_cons in Hr as [Hr|Hr]; [discriminate Hr |]).
    by apply elem_of_nil in Hr. }
  split; [exact Hiff |]. split; [| split; [| split; [| split]]].
  - intros Hopt. split; [| by intros ?%Hspec%Hiff].
    intros Hne%Hiff. unfold roleOptions in Hopt.
    apply elem_of_cons in Hopt as [Hopt|Hopt]; [by rewrite Hopt in Hne | done].
  - by intros ?%Hspec%Hiff.
  - by rewrite validate_role.
  - by rewrite validate_role.
  - apply role_run.
Qed.

Lemma role_valid_iff_nonempty_witness :
  validate ann !! [Zod.Key "role"] = None
  ∧ role (formValues (run init [SelectRole 2])) = JS.lit "developer"
  ∧ validate (formValues (run init [SelectRole 2])) !! [Zod.Key "role"] = None.
Proof.
  destruct (role_valid_iff_nonempty ann []) as (Hann & _).
  destruct (role_valid_iff_nonempty (formValues (run init [SelectRole 2]))
              [SelectRole 2]) as (_ & Hsel & _ & _ & _ & Hopt).
  split; [| split].
  - apply Hann. discriminate.
  - reflexivity.
  - apply (Hsel Hopt). unfold specRoles. right. left.
Defined.

(** C1 as stated fails: with role "manager", which is none of the three
    enumerated roles, the validator reports no role error. *)
Lemma role_manager_accepted :
  validate (setRole (JS.lit "manager") ann) !! [Zod.Key "role"] = None
  ∧ (JS.lit "manager" ∉ specRoles)
  ∧ ¬ (validate (setRole (JS.lit "manager") ann) !! [Zod.Key "role"] = None
       ↔ role (setRole (JS.lit "manager") ann) ∈ specRoles).
Proof.
  assert (JS.lit "manager" ∉ specRoles) as Hno.
  { unfold specRoles. intros H.
    repeat (apply elem_of_cons in H as [H|H]; [discriminate H |]).
    by apply elem_of_nil in H. }
  assert (validate (setRole (JS.lit "manager") ann) !! [Zod.Key "role"] = None)
    as Hok by (by vm_compute).
  split; [done |]. split; [done |]. intros [H _]. by apply Hno, H.
Qed.

(** C2.  The contact field is valid exactly when its value is a string of
    exactly ten decimal digits: "1234567890" is valid; "123456789",
    "12345678901" and "123-456-7890" each yield a contact error. *)
Theorem contact_valid_iff_ten_digits (d : FormData) :
  (validate d !! [Zod.Key "contact"] = None
   ↔ length (contact d) = 10 ∧ Forall isDigit (contact d))
  ∧ validate (setControl Contact (JS.lit "1234567890") d) !! [Zod.Key "contact"]
    = None
  ∧ validate (setControl Contact (JS.lit "123456789") d) !! [Zod.Key "contact"]
    = Some "Contact must be 10 digits"%string
  ∧ validate (setControl Contact (JS.lit "12345678901") d) !! [Zod.Key "contact"]
    = Some "Contact must be 10 digits"%string
  ∧ validate (setControl Contact (JS.lit "123-456-7890") d) !! [Zod.Key "contact"]
    = Some "Contact must be 10 digits"%string.
Proof.
  split; [| by rewrite !validate_contact].
  rewrite validate_contact, required_regex, <- test_tenDigits.
  destruct (decide (contact d = [])) as [He|_].
  - split; [done |]. by rewrite He.
  - by destruct (JS.test tenDigits (contact d)).
Qed.

(** C3.  firstName, and likewise lastName, is invalid exactly when its value
    is empty or trims to the empty string; and a value made of white space
    only is invalid just as the empty value is, for firstName, for lastName
    and for each skill entry.  (Which message the two cases get is C10.) *)
Theorem names_invalid_iff_blank (d : FormData) (w : list N) (j : nat) :
  (is_Some (validate d !! [Zod.Key "firstName"])
   ↔ firstName d = [] ∨ JS.trim (firstName d) = [])
  ∧ (is_Some (validate d !! [Zod.Key "lastName"])
     ↔ lastName d = [] ∨ JS.trim (lastName d) = [])
  ∧ (blank w →
     is_Some (validate (setControl FirstName w d) !! [Zod.Key "firstName"])
     ∧ is_Some (validate (setControl FirstName [] d) !! [Zod.Key "firstName"])
     ∧ is_Some (validate (setControl LastName w d) !! [Zod.Key "lastName"])
     ∧ is_Some (validate (setControl LastName [] d) !! [Zod.Key "lastName"])
     ∧ (j < length (skills d) →
        is_Some (validate (setSkills (<[j := {| value := w |}]> (skills d)) d)
                 !! [Zod.Key "skills"; Zod.Idx j; Zod.Key "value"])
        ∧ is_Some (validate (setSkills (<[j := {| value := [] |}]> (skills d)) d)
                   !! [Zod.Key "skills"; Zod.Idx j; Zod.Key "value"]))).
Proof.
  assert (∀ v, v = [] ∨ JS.trim v = [] ↔ blank v) as Htrim.
  { intros v. rewrite trim_nil_iff. split; [| by right].
    intros [->|H]; [apply blank_nil | done]. }
  split; [| split].
  - by rewrite validate_firstName, required_notBlank_is_Some, Htrim.
  - by rewrite validate_lastName, required_notBlank_is_Some, Htrim.
  - intros Hw.
    rewrite !validate_firstName, !validate_lastName, !required_notBlank_is_Some.
    cbn [setControl firstName lastName].
    split; [done |]. split; [apply blank_nil |].
    split; [done |]. split; [apply blank_nil |].
    intros Hj. rewrite !validate_skill. cbn [setSkills skills].
    rewrite !list_lookup_insert_eq by done. cbn [mbind option_bind value].
    rewrite !required_notBlank_is_Some. split; [done | apply blank_nil].
Qed.

Lemma names_invalid_iff_blank_witness :
  is_Some (validate (setControl FirstName (JS.lit "   ") ann)
           !! [Zod.Key "firstName"])
  ∧ is_Some (validate (setControl LastName (JS.lit "   ") ann)
             !! [Zod.Key "lastName"])
  ∧ is_Some (validate (setSkills (<[0 := {| value := JS.lit "   " |}]> (skills ann)) ann)
             !! [Zod.Key "skills"; Zod.Idx 0; Zod.Key "value"]).
Proof.
  destruct (names_invalid_iff_blank ann (JS.lit "   ") 0) as (_ & _ & H).
  destruct H as (Hf & _ & Hl & _ & Hs).
  { unfold blank. by repeat constructor. }
  split; [exact Hf |]. split; [exact Hl |].
  apply Hs. simpl. lia.
Defined.

(** C4.  The skills list validates only when it has at least one entry and
    no entry is empty or white space only; an entry that fails is reported at
    its own position, and nowhere else; and submitting with the single skill
    of three spaces reports the error at index 0 and leaves the form where
    it was. *)
Theorem skills_valid_iff_all_filled (d : FormData) (st : AppState) :
  ((∀ p, validate d !! (Zod.Key "skills" :: p) = None)
   ↔ skills d ≠ [] ∧ Forall (λ s, ¬ blank (value s)) (skills d))
  ∧ (∀ j, is_Some (validate d !! [Zod.Key "skills"; Zod.Idx j; Zod.Key "value"])
          ↔ ∃ s, skills d !! j = Some s ∧ blank (value s))
  ∧ (skills (formValues st) = [ {| value := JS.lit "   " |} ] →
     validate (formValues st) !! [Zod.Key "skills"; Zod.Idx 0; Zod.Key "value"]
     = Some "Skill cannot be empty spaces"%string
     ∧ RHF.handleSubmit onSubmit st = (st, validate (formValues st))).
Proof.
  assert (∀ j, is_Some (validate d !! [Zod.Key "skills"; Zod.Idx j; Zod.Key "value"])
               ↔ ∃ s, skills d !! j = Some s ∧ blank (value s)) as Hentry.
  { intros j. rewrite validate_skill. destruct (skills d !! j) as [s|]; simpl.
    - rewrite required_notBlank_is_Some. split; [eauto |].
      by intros (? & [= <-] & ?).
    - split; [by intros [? ?] | by intros (? & ? & _)]. }
  split; [| split; [exact Hentry |]].
  - split.
    + intros Hnone. split.
      * specialize (Hnone []). rewrite validate_skills in Hnone.
        destruct (decide _) as [Hlen|]; [| done].
        intros He. rewrite He in Hlen. simpl in Hlen. lia.
      * apply Forall_lookup. intros j s Hs Hb.
        specialize (Hnone [Zod.Idx j; Zod.Key "value"]).
        assert (is_Some (validate d !! [Zod.Key "skills"; Zod.Idx j; Zod.Key "value"]))
          as [m Hm] by (apply Hentry; eauto).
        congruence.
    + intros [Hne Hall] p.
      destruct (decide (p = [])) as [->|Hp].
      { rewrite validate_skills, decide_True; [done |].
        destruct (skills d); [done | simpl; lia]. }
      assert ((∃ j, p = [Zod.Idx j; Zod.Key "value"])
              ∨ (∀ j, p ≠ [Zod.Idx j; Zod.Key "value"])) as [[j ->]|Hnj].
      { destruct p as [|[k|j] [|[k'|j'] [|? ?]]]; try (right; congruence).
        destruct (decide (k' = "value"%string)) as [->|];
          [left; eauto | right; congruence]. }
      { apply eq_None_not_Some. intros (s & Hs & Hb)%Hentry.
        rewrite Forall_lookup in Hall. by apply (Hall j s). }
      apply validate_elsewhere.
      * rewrite !not_elem_of_cons. repeat split; try congruence.
        apply not_elem_of_nil.
      * intros j [= ->]. by apply (Hnj j).
  - intros Hsk.
    assert (validate (formValues st) !! [Zod.Key "skills"; Zod.Idx 0; Zod.Key "value"]
            = Some "Skill cannot be empty spaces"%string) as Hm.
    { by rewrite validate_skill, Hsk. }
    split; [done |]. by eapply handleSubmit_rejected.
Qed.

Lemma skills_valid_iff_all_filled_witness :
  validate (formValues (step init (TypeSkill 0 (JS.lit "   "))))
    !! [Zod.Key "skills"; Zod.Idx 0; Zod.Key "value"]
  = Some "Skill cannot be empty spaces"%string
  ∧ step (step init (TypeSkill 0 (JS.lit "   "))) ClickSubmit
    = step init (TypeSkill 0 (JS.lit "   ")).
Proof.
  destruct (skills_valid_iff_all_filled ann (step init (TypeSkill 0 (JS.lit "   "))))
    as (_ & _ & H).
  destruct H as [Hm Hs]; [reflexivity |].
  split; [exact Hm |]. unfold step at 1. by rewrite Hs.
Defined.

(** C5.  When every field of the submitted record validates, submitting
    stores exactly that record in [submittedData] and resets the form to its
    initial values, with one empty skill entry; the record of Ann Lee
    validates, so submitting it has exactly this outcome. *)
Theorem submit_valid_record (st : AppState) :
  validate ann = ∅
  ∧ (validate (formValues st) = ∅ →
     let st' := (RHF.handleSubmit onSubmit st).1 in
     submittedData st' = Some (formValues st)
     ∧ formValues st' = defaultValues
     ∧ skills (formValues st') = [ {| value := JS.lit "" |} ]
     ∧ length (fields st') = 1
     ∧ (RHF.handleSubmit onSubmit st).2 = ∅).
Proof.
  split; [by apply validate_empty |].
  intros Hok. by rewrite handleSubmit_accepted.
Qed.

Lemma submit_valid_record_witness :
  let st := run init [Type_ FirstName (JS.lit "Ann"); Type_ LastName (JS.lit "Lee");
                      Type_ Email (JS.lit "ann@x.com");
                      Type_ Contact (JS.lit "1234567890");
                      SelectRole 2; TypeSkill 0 (JS.lit "Go")] in
  formValues st = ann
  ∧ submittedData (step st ClickSubmit) = Some ann
  ∧ formValues (step st ClickSubmit) = defaultValues
  ∧ length (fields (step st ClickSubmit)) = 1.
Proof.
  intros st.
  destruct (submit_valid_record st) as [Hann H].
  destruct (H Hann) as (Hsub & Hform & _ & Hlen & _).
  split; [reflexivity |]. split; [exact Hsub |]. split; [exact Hform | exact Hlen].
Defined.



(** ** Validation over the heap *)

Section run.

Variables (reset : bool) (h : Run.heap).

(** On [h], a check answers as the pure check it stands for and leaves [h]
    as it was. *)
Hypothesis passes_h :
  ∀ c v, Run.passes reset c v h = (Zod.passes (Run.erase c) v, h).

Lemma msgOf_erase c : Zod.msgOf (Run.erase c) = Run.msgOf c.
Proof. by destruct c as [| [] |]. Qed.

Lemma z_string_run checks p v :
  Run.z_string reset checks p v h = (Zod.z_string (Run.erase <$> checks) p v, h).
Proof.
  induction checks as [|c checks IH]; [done |].
  cbn [Run.z_string]. unfold Run.bind at 1. rewrite passes_h.
  unfold Run.bind at 1. rewrite IH. unfold Run.ret.
  by rewrite fmap_cons, z_string_cons, msgOf_erase.
Qed.

Lemma skillSchema_run p s :
  Run.skillSchema reset p s h = (skillSchema p s, h).
Proof. unfold Run.skillSchema, Run.z_field. by rewrite z_string_run. Qed.

Lemma z_elements_run p i (l : list Skill) :
  Run.z_elements (Run.skillSchema reset) p i l h
  = (mjoin (imap (λ k a, skillSchema (p ++ [Zod.Idx (i + k)]) a) l), h).
Proof.
  revert i. induction l as [|a l IH]; intros i; [done |].
  cbn [Run.z_elements]. unfold Run.bind at 1. rewrite skillSchema_run.
  unfold Run.bind at 1. rewrite IH. unfold Run.ret.
  rewrite imap_cons, mjoin_cons, Nat.add_0_r. do 3 f_equal.
  apply imap_ext. intros k s _. simpl. do 4 f_equal. lia.
Qed.

Lemma z_array_run n msg p (l : list Skill) :
  Run.z_array (Run.skillSchema reset) n msg p l h
  = (Zod.z_array skillSchema n msg p l, h).
Proof.
  unfold Run.z_array, Run.bind. by rewrite z_elements_run.
Qed.

Lemma z_optional_run p (v : option (list N)) :
  Run.z_optional (Run.z_string reset []) p v h
  = (Zod.z_optional (Zod.z_string []) p v, h).
Proof. by destruct v. Qed.

Lemma z_object_cons_run m v props vals :
  m h = (v, h) → Run.z_object props h = (vals, h) →
  Run.z_object (m :: props) h = (v ++ vals, h).
Proof.
  intros Hm Hprops. cbn [Run.z_object]. unfold Run.bind at 1. rewrite Hm.
  unfold Run.bind at 1. by rewrite Hprops.
Qed.

Lemma schema_run p d : Run.schema reset p d h = (schema p d, h).
Proof.
  unfold Run.schema, Run.z_field. etrans.
  { repeat (eapply z_object_cons_run;
            [first [apply z_string_run | apply z_array_run | apply z_optional_run] |]).
    reflexivity. }
  unfold schema, Zod.z_field. rewrite app_nil_r. reflexivity.
Qed.

Lemma zodResolver_run d :
  Run.zodResolver reset d h = (Resolver.zodResolver schema d, h).
Proof.
  unfold Run.zodResolver, Run.bind, Resolver.zodResolver. rewrite schema_run.
  by destruct (schema [] d).
Qed.

Lemma validateAll_run records :
  Run.validateAll reset records h = (validate <$> records, h).
Proof.
  induction records as [|d records IH]; [done |].
  cbn [Run.validateAll]. unfold Run.bind at 1. rewrite zodResolver_run.
  unfold Run.bind at 1. by rewrite IH.
Qed.

End run.

Lemma passes_loaded reset c v :
  Run.passes reset c v Run.loaded = (Zod.passes (Run.erase c) v, Run.loaded).
Proof. by destruct c as [| [] |], reset. Qed.

Lemma passes_loadedAt i j c v :
  Run.passes false c v (Run.loadedAt i j)
  = (Zod.passes (Run.erase c) v, Run.loadedAt i j).
Proof. by destruct c as [| [] |]. Qed.

(** With the [g] flag on the contact pattern the same record would pass and
    fail in turn, and where zod resets [lastIndex] the pattern would still be
    written to: what follows rests on the pattern of line 16 having no flag. *)
Lemma global_flag_is_stateful :
  (Run.schema false [] ann Run.loadedGlobal).1 = []
  ∧ (Run.schema false [] ann (Run.schema false [] ann Run.loadedGlobal).2).1
    = [{| Zod.path := [Zod.Key "contact"];
          Zod.message := "Contact must be 10 digits" |}]
  ∧ Run.lastIndex (Run.contactPattern (Run.schema true [] ann Run.loadedGlobal).2)
    = 10.
Proof.
  split; [vm_compute; reflexivity |]. split; vm_compute; reflexivity.
Qed.

Lemma zodResolver_loaded reset d :
  Run.zodResolver reset d Run.loaded = (Resolver.zodResolver schema d, Run.loaded).
Proof. apply zodResolver_run, passes_loaded. Qed.

Lemma zodResolver_loadedAt d i j :
  Run.zodResolver false d (Run.loadedAt i j)
  = (Resolver.zodResolver schema d, Run.loadedAt i j).
Proof. apply zodResolver_run, passes_loadedAt. Qed.

Lemma validateAll_loaded reset records :
  Run.validateAll reset records Run.loaded = (validate <$> records, Run.loaded).
Proof. apply validateAll_run, passes_loaded. Qed.

(** C9.  Validation is a function of the candidate record and of nothing
    else, and leaves no trace.  Run over the heap that holds the two RegExp
    objects of the schema, the only things with state it touches, the
    resolver gives what it gives as a function and hands the heap back as it
    found it, whether or not zod resets [lastIndex], and whatever [lastIndex]
    was if it does not.  So any sequence of validations yields, record by
    record, the error map of that record; validating a record twice, with
    other records in between, yields the same map both times. *)
Theorem validation_pure
    (reset : bool) (d : FormData) (records : list FormData) (i j : nat) :
  Run.zodResolver reset d Run.loaded = (Resolver.zodResolver schema d, Run.loaded)
  ∧ Run.zodResolver false d (Run.loadedAt i j)
    = (Resolver.zodResolver schema d, Run.loadedAt i j)
  ∧ Run.validateAll reset records Run.loaded = (validate <$> records, Run.loaded)
  ∧ Run.validateAll reset (d :: records ++ [d]) Run.loaded
    = (validate d :: (validate <$> records) ++ [validate d], Run.loaded).
Proof.
  split; [exact (zodResolver_loaded reset d) |].
  split; [exact (zodResolver_loadedAt d i j) |].
  split; [exact (validateAll_loaded reset records) |].
  rewrite validateAll_loaded. by rewrite fmap_cons, fmap_app.
Qed.

Lemma validation_pure_witness :
  Run.validateAll true (ann :: [defaultValues] ++ [ann]) Run.loaded
  = (validate ann :: (validate <$> [defaultValues]) ++ [validate ann], Run.loaded).
Proof.
  exact (proj2 (proj2 (proj2 (validation_pure true ann [defaultValues] 0 0)))).
Defined.

Lemma firstFailing_Some checks v c :
  firstFailing checks v = Some c
  ↔ ∃ pre post, checks = pre ++ c :: post
                ∧ Forall (λ c', Zod.passes c' v = true) pre
                ∧ Zod.passes c v = false.
Proof.
  split.
  - induction checks as [|c' checks IH]; [done |].
    rewrite firstFailing_cons. destruct (Zod.passes c' v) eqn:Hc'.
    + intros (pre & post & -> & Hpre & Hc)%IH.
      exists (c' :: pre), post. split; [done |]. split; [by constructor | done].
    + intros [= ->]. exists [], checks. split; [done |]. split; [constructor | done].
  - intros (pre & post & -> & Hpre & Hc). by apply firstFailing_middle.
Qed.

(** C10.  Each of the five fields whose schema chains two constraints
    (firstName, lastName, email, contact and the value of every skill) gets
    from the validator the message of the first check of its chain that
    fails, in the order the chain is written: the checks before it pass, it
    does not.  On the empty value both checks of a chain fail and the first
    one speaks: "First Name is required", not "First Name cannot be empty
    spaces"; "Contact number is required", not "Contact must be 10 digits";
    "Email is required", not "Invalid email address".  A value that passes
    the first check and fails the second gets the second message, so an
    empty and a white-space-only name are both invalid with different
    messages. *)
Theorem first_failing_constraint_reported (d : FormData) (j : nat) :
  (* the validator reports the first failing check of each chain *)
  (validate d !! [Zod.Key "firstName"]
   = Zod.msgOf <$> firstFailing
       [Zod.min 1 "First Name is required";
        Zod.refine notBlank "First Name cannot be empty spaces"] (firstName d)
   ∧ validate d !! [Zod.Key "lastName"]
     = Zod.msgOf <$> firstFailing
         [Zod.min 1 "Last Name is required";
          Zod.refine notBlank "Last Name cannot be empty spaces"] (lastName d)
   ∧ validate d !! [Zod.Key "email"]
     = Zod.msgOf <$> firstFailing
         [Zod.min 1 "Email is required";
          Zod.email "Invalid email address"] (email d)
   ∧ validate d !! [Zod.Key "contact"]
     = Zod.msgOf <$> firstFailing
         [Zod.min 1 "Contact number is required";
          Zod.regex tenDigits "Contact must be 10 digits"] (contact d)
   ∧ validate d !! [Zod.Key "skills"; Zod.Idx j; Zod.Key "value"]
     = (s ← skills d !! j;
        Zod.msgOf <$> firstFailing
          [Zod.min 1 "Skill is required";
           Zod.refine notBlank "Skill cannot be empty spaces"] (value s)))
  (* where the first failing check is the one all checks before which pass *)
  ∧ (∀ checks v c,
       firstFailing checks v = Some c
       ↔ ∃ pre post, checks = pre ++ c :: post
                     ∧ Forall (λ c', Zod.passes c' v = true) pre
                     ∧ Zod.passes c v = false)
  ∧ (∀ checks v,
       firstFailing checks v = None ↔ Forall (λ c, Zod.passes c v = true) checks)
  (* the message of each field, case by case *)
  ∧ (validate d !! [Zod.Key "firstName"]
     = (if decide (firstName d = []) then Some "First Name is required"%string
        else if decide (blank (firstName d))
             then Some "First Name cannot be empty spaces"%string else None)
     ∧ validate d !! [Zod.Key "lastName"]
       = (if decide (lastName d = []) then Some "Last Name is required"%string
          else if decide (blank (lastName d))
               then Some "Last Name cannot be empty spaces"%string else None)
     ∧ validate d !! [Zod.Key "email"]
       = (if decide (email d = []) then Some "Email is required"%string
          else if JS.test Zod.emailRegex (email d) then None
               else Some "Invalid email address"%string)
     ∧ validate d !! [Zod.Key "contact"]
       = (if decide (contact d = []) then Some "Contact number is required"%string
          else if decide (length (contact d) = 10 ∧ Forall isDigit (contact d))
               then None else Some "Contact must be 10 digits"%string)
     ∧ validate d !! [Zod.Key "skills"; Zod.Idx j; Zod.Key "value"]
       = (s ← skills d !! j;
          if decide (value s = []) then Some "Skill is required"%string
          else if decide (blank (value s))
               then Some "Skill cannot be empty spaces"%string else None))
  (* on the empty value the second check of each chain fails as well *)
  ∧ (Zod.passes (Zod.refine notBlank "First Name cannot be empty spaces") [] = false
     ∧ Zod.passes (Zod.email "Invalid email address") [] = false
     ∧ Zod.passes (Zod.regex tenDigits "Contact must be 10 digits") [] = false).
Proof.
  split; [| split; [| split; [| split]]].
  - rewrite validate_firstName, validate_lastName, validate_email,
            validate_contact, validate_skill. done.
  - apply firstFailing_Some.
  - apply firstFailing_None.
  - rewrite validate_firstName, validate_lastName, validate_email,
            validate_contact, validate_skill.
    rewrite !required_notBlank, required_email, required_regex.
    split; [done |]. split; [done |]. split; [done |]. split.
    + destruct (decide (contact d = [])); [done |].
      destruct (JS.test tenDigits (contact d)) eqn:Ht.
      * apply test_tenDigits in Ht. by rewrite decide_True.
      * rewrite decide_False; [done |]. rewrite <- test_tenDigits. congruence.
    + destruct (skills d !! j) as [s|]; simpl; [| done].
      by rewrite required_notBlank.
  - done.
Qed.

Lemma first_failing_constraint_reported_witness :
  validate defaultValues !! [Zod.Key "firstName"]
  = Some "First Name is required"%string
  ∧ validate (setControl FirstName (JS.lit "   ") defaultValues) !! [Zod.Key "firstName"]
    = Some "First Name cannot be empty spaces"%string
  ∧ validate defaultValues !! [Zod.Key "contact"]
    = Some "Contact number is required"%string
  ∧ validate (setControl Contact (JS.lit "123-456-7890") defaultValues)
      !! [Zod.Key "contact"]
    = Some "Contact must be 10 digits"%string
  ∧ validate defaultValues !! [Zod.Key "email"] = Some "Email is required"%string
  ∧ validate (setControl Email (JS.lit "ann@x") defaultValues) !! [Zod.Key "email"]
    = Some "Invalid email address"%string
  ∧ validate (setControl LastName (JS.lit " ") defaultValues) !! [Zod.Key "lastName"]
    = Some "Last Name cannot be empty spaces"%string
  ∧ validate defaultValues !! [Zod.Key "skills"; Zod.Idx 0; Zod.Key "value"]
    = Some "Skill is required"%string.
Proof.
  destruct (first_failing_constraint_reported defaultValues 0)
    as (_ & _ & _ & (Hf & _ & He & Hc & Hs) & _).
  destruct (first_failing_constraint_reported
              (setControl FirstName (JS.lit "   ") defaultValues) 0)
    as (_ & _ & _ & (Hf' & _) & _).
  destruct (first_failing_constraint_reported
              (setControl Contact (JS.lit "123-456-7890") defaultValues) 0)
    as (_ & _ & _ & (_ & _ & _ & Hc' & _) & _).
  destruct (first_failing_constraint_reported
              (setControl Email (JS.lit "ann@x") defaultValues) 0)
    as (_ & _ & _ & (_ & _ & He' & _) & _).
  destruct (first_failing_constraint_reported
              (setControl LastName (JS.lit " ") defaultValues) 0)
    as (_ & _ & _ & (_ & Hl' & _) & _).
  split; [etrans; [exact Hf | by vm_compute] |].
  split; [etrans; [exact Hf' | by vm_compute] |].
  split; [etrans; [exact Hc | by vm_compute] |].
  split; [etrans; [exact Hc' | by vm_compute] |].
  split; [etrans; [exact He | by vm_compute] |].
  split; [etrans; [exact He' | by vm_compute] |].
  split; [etrans; [exact Hl' | by vm_compute] |].
  etrans; [exact Hs | by vm_compute].
Defined.

(** C7.  In every state the form reaches, by whatever events, the skills
    list has at least one entry.  The X button of the only entry left does
    nothing; on a longer list, the X button of an entry removes exactly that
    entry. *)
Theorem skills_never_empty (es : list event) (i : nat) :
  let st := run init es in
  1 ≤ length (fields st)
  ∧ 1 ≤ length (skills (formValues st))
  ∧ 1 ≤ length (fields (step st (ClickRemove i)))
  ∧ (length (fields st) = 1 → step st (ClickRemove i) = st)
  ∧ (1 < length (fields st) → i < length (fields st) →
     fields (step st (ClickRemove i)) = delete i (fields st)
     ∧ skills (formValues (step st (ClickRemove i)))
       = delete i (skills (formValues st))
     ∧ length (fields (step st (ClickRemove i))) = length (fields st) - 1).
Proof.
  intros st.
  assert (wf st) as Hwf by apply wf_run, wf_init.
  assert (wf (step st (ClickRemove i))) as Hwf' by by apply wf_step.
  pose proof Hwf as [Hlen Hne _ _]. pose proof Hwf' as [_ Hne' _ _].
  pose proof (length_fields _ Hwf) as Hf. pose proof (length_fields _ Hwf') as Hf'.
  split; [lia |]. split; [lia |]. split; [lia |]. split.
  - intros H1. simpl. by rewrite bool_decide_eq_true_2.
  - intros Hlt Hi. simpl. rewrite bool_decide_eq_false_2 by lia.
    rewrite fields_remove. split; [done |]. split; [done |].
    rewrite length_delete_total, decide_True; done.
Qed.

Lemma skills_never_empty_witness :
  step init (ClickRemove 0) = init
  ∧ fields (step (run init [ClickAdd; TypeSkill 1 (JS.lit "Go")]) (ClickRemove 0))
    = [(1, {| value := JS.lit "Go" |})].
Proof.
  destruct (skills_never_empty [] 0) as (_ & _ & _ & Hone & _).
  destruct (skills_never_empty [ClickAdd; TypeSkill 1 (JS.lit "Go")] 0)
    as (_ & _ & _ & _ & Hmore).
  split; [by apply Hone |].
  destruct Hmore as (Hf & _); [simpl; lia | simpl; lia |]. exact Hf.
Defined.

(** C8.  Add Skill puts exactly one new, empty entry at the end, under an id
    that no entry of the list has and that no entry of any earlier list had,
    removed ones included; removing never reorders the entries that stay;
    and editing an entry changes no id, no order and no other entry. *)
Theorem append_fresh_order_kept (es1 es2 : list event) (i : nat) (v : list N) :
  let before := run init es1 in
  let st := run before es2 in
  fields (step st ClickAdd) = fields st ++ [(nextId st, {| value := JS.lit "" |})]
  ∧ (nextId st ∉ fieldIds st)
  ∧ (nextId st ∉ fieldIds before)
  ∧ NoDup (fieldIds (step st ClickAdd))
  ∧ fields (step st (ClickRemove i))
    = (if decide (length (fields st) = 1) then fields st else delete i (fields st))
  ∧ fields (step st (ClickRemove i)) `sublist_of` fields st
  ∧ fieldIds (step st (TypeSkill i v)) = fieldIds st
  ∧ length (fields (step st (TypeSkill i v))) = length (fields st)
  ∧ (∀ j, j ≠ i → fields (step st (TypeSkill i v)) !! j = fields st !! j).
Proof.
  intros before st.
  assert (wf before) as Hwfb by apply wf_run, wf_init.
  assert (wf st) as Hwf by by apply wf_run.
  pose proof Hwf as [Hlen Hne Hnd Hiss].
  assert (∀ st0 : AppState, wf st0 → ∀ n, nextId st0 ≤ n → n ∉ fieldIds st0) as Hfresh.
  { intros st0 [_ _ _ H0] n Hn Hin. rewrite Forall_forall in H0.
    specialize (H0 _ Hin). lia. }
  split; [| split; [| split; [| split; [| split; [| split; [| split; [| split]]]]]]].
  - unfold fields. simpl. by rewrite zip_with_app.
  - by apply Hfresh.
  - apply Hfresh; [done |]. apply nextId_run.
  - by apply (wf_step st ClickAdd).
  - simpl. case_bool_decide; [by rewrite decide_True |].
    by rewrite decide_False, fields_remove.
  - simpl. case_bool_decide; [done |]. rewrite fields_remove. apply sublist_delete.
  - done.
  - rewrite !length_fields; [done.. | by apply wf_step].
  - intros j Hj. unfold fields. simpl.
    rewrite !lookup_zip_with. by rewrite list_lookup_insert_ne.
Qed.

Lemma append_fresh_order_kept_witness :
  let st := run init [ClickAdd; ClickAdd; ClickRemove 1; TypeSkill 0 (JS.lit "Go")] in
  fieldIds st = [0; 2]
  ∧ fields (step st ClickAdd)
    = [(0, {| value := JS.lit "Go" |}); (2, {| value := [] |}); (3, {| value := [] |})]
  ∧ (3 ∉ fieldIds (run init [ClickAdd; ClickAdd])).
Proof.
  intros st.
  destruct (append_fresh_order_kept [ClickAdd; ClickAdd]
              [ClickRemove 1; TypeSkill 0 (JS.lit "Go")] 0 [])
    as (Happ & _ & Hold & _).
  split; [reflexivity |]. split; [exact Happ | exact Hold].
Defined.

(** ** Further properties of the schema *)

Section schema_facts.

Lemma path_cases p :
  (∃ f, p = pathOf f)
  ∨ ((p ∉ [[Zod.Key "firstName"]; [Zod.Key "lastName"]; [Zod.Key "email"];
           [Zod.Key "contact"]; [Zod.Key "role"]; [Zod.Key "skills"]])
     ∧ ∀ j, p ≠ [Zod.Key "skills"; Zod.Idx j; Zod.Key "value"]).
Proof.
  destruct (decide (p ∈ [[Zod.Key "firstName"]; [Zod.Key "lastName"];
                         [Zod.Key "email"]; [Zod.Key "contact"];
                         [Zod.Key "role"]; [Zod.Key "skills"]])) as [Hin|Hout].
  - left. rewrite !elem_of_cons, elem_of_nil in Hin.
    destruct Hin as [->|[->|[->|[->|[->|[->|[]]]]]]].
    + by exists RFirstName.
    + by exists RLastName.
    + by exists REmail.
    + by exists RContact.
    + by exists RRole.
    + by exists RSkills.
  - destruct p as [|[k|?] [|[?|j] [|[k'|?] [|? ?]]]];
      try (right; split; [done | congruence]).
    destruct (decide (k = "skills"%string ∧ k' = "value"%string)) as [[-> ->]|Hne].
    + left. by exists (RSkill j).
    + right. split; [done |]. intros j' [= -> -> ->]. by apply Hne.
Qed.

(** A required field has an error exactly when it fails its constraint. *)
Lemma validate_fails d f :
  is_Some (validate d !! pathOf f) ↔ fails f d.
Proof.
  destruct f; simpl.
  - by rewrite validate_firstName, required_notBlank_is_Some.
  - by rewrite validate_lastName, required_notBlank_is_Some.
  - rewrite validate_email, required_email.
    destruct (decide (email d = [])) as [He|He]; [split; eauto |].
    destruct (JS.test Zod.emailRegex (email d)) eqn:Ht.
    + split; [by intros [? ?] | intros [?|?]; congruence].
    + split; eauto.
  - rewrite validate_contact, required_regex, <- test_tenDigits.
    destruct (decide (contact d = [])) as [He|He].
    + split; [| eauto]. intros _. by rewrite He.
    + destruct (JS.test tenDigits (contact d)).
      * split; [by intros [? ?] | by intros H].
      * split; [done | eauto].
  - rewrite validate_role, required_only.
    destruct (decide (role d = [])); [split; eauto |].
    split; [by intros [? ?] | done].
  - rewrite validate_skills. destruct (skills d); simpl; [split; eauto |].
    split; [by intros [? ?] | done].
  - rewrite validate_skill. destruct (skills d !! j) as [s|]; simpl.
    + rewrite required_notBlank_is_Some. split; [eauto |].
      by intros (? & [= <-] & ?).
    + split; [by intros [? ?] | by intros (? & ? & _)].
Qed.

Lemma validate_required d f :
  validate d !! pathOf f = None ↔ ¬ fails f d.
Proof. by rewrite eq_None_not_Some, validate_fails. Qed.

(** The form is accepted exactly when no required field fails. *)
Lemma validate_empty_fails d : validate d = ∅ ↔ ∀ f, ¬ fails f d.
Proof.
  rewrite map_empty. split.
  - intros H f. apply validate_required, H.
  - intros H p. destruct (path_cases p) as [[f ->]|[Hp Hj]].
    + apply validate_required, H.
    + by apply validate_elsewhere.
Qed.

Lemma emailRegex_nonempty : JS.test Zod.emailRegex [] = false.
Proof. reflexivity. Qed.

Lemma schema_setMessage p m d : schema p (setMessage m d) = schema p d.
Proof.
  unfold schema, Zod.z_field. cbn [setMessage firstName lastName email contact
                                   role skills message].
  do 6 f_equal. by destruct m, (message d).
Qed.

End schema_facts.

(** X1.  The form accepts a record exactly when both names hold something
    other than white space, the email has the shape of an address, the
    contact is ten digits, a role is chosen, and there is at least one skill
    and no skill is blank.  Nothing else, the message included, matters. *)
Theorem accepted_iff_all_fields_filled (d : FormData) :
  validate d = ∅
  ↔ ¬ blank (firstName d)
    ∧ ¬ blank (lastName d)
    ∧ JS.test Zod.emailRegex (email d) = true
    ∧ (length (contact d) = 10 ∧ Forall isDigit (contact d))
    ∧ role d ≠ []
    ∧ skills d ≠ []
    ∧ Forall (λ s, ¬ blank (value s)) (skills d).
Proof.
  rewrite validate_empty_fails. split.
  - intros H. split; [apply (H RFirstName) |]. split; [apply (H RLastName) |].
    split.
    { pose proof (H REmail) as He. simpl in He.
      destruct (JS.test Zod.emailRegex (email d)); [done |].
      exfalso. apply He. by right. }
    split.
    { pose proof (H RContact) as Hc. simpl in Hc.
      by destruct (decide (length (contact d) = 10 ∧ Forall isDigit (contact d))). }
    split; [apply (H RRole) |]. split; [apply (H RSkills) |].
    apply Forall_lookup. intros j s Hs Hb. apply (H (RSkill j)). simpl. eauto.
  - intros (Hf & Hl & He & Hc & Hr & Hs & Hall) f. destruct f; simpl; try done.
    + intros [Hnil|Hno]; [| congruence].
      rewrite Hnil, emailRegex_nonempty in He. discriminate.
    + by intros H.
    + intros (s & Hj & Hb). rewrite Forall_lookup in Hall. by apply (Hall j s).
Qed.

(** X2.  While the skills list is not empty, every entry of the error map
    sits at the path of a field that fails its constraint (a name, the
    email, the contact, the role or a skill entry) and has a non-empty
    message; for a skill entry the index lies inside the list.  There is
    never an error at the message, past the end of the list, or for the list
    as a whole.  (With an empty list the resolver files the error of the
    list under its [root] key, which the flat map here does not have.) *)
Theorem errors_only_at_failing_fields (d : FormData) (p : list Zod.seg) (m : string) :
  skills d ≠ [] →
  validate d !! p = Some m →
  m ≠ ""%string
  ∧ ∃ f, f ≠ RSkills ∧ p = pathOf f ∧ fails f d
         ∧ ∀ j, f = RSkill j → j < length (skills d).
Proof.
  intros Hne Hm. split; [by eapply message_nonempty |].
  destruct (path_cases p) as [[f ->]|[Hp Hj]].
  - assert (fails f d) as Hf by (apply validate_fails; eauto).
    exists f. split; [by intros -> |]. split; [done |]. split; [done |].
    intros j ->. destruct Hf as (s & Hs & _). by eapply lookup_lt_Some.
  - by rewrite validate_elsewhere in Hm.
Qed.

Lemma errors_only_at_failing_fields_witness :
  ∃ f, [Zod.Key "skills"; Zod.Idx 0; Zod.Key "value"] = pathOf f
       ∧ fails f defaultValues.
Proof.
  destruct (errors_only_at_failing_fields defaultValues
              [Zod.Key "skills"; Zod.Idx 0; Zod.Key "value"] "Skill is required")
    as (_ & f & _ & Hp & Hf & _); [discriminate | reflexivity |].
  exists f. by split.
Defined.

(** X3.  The message never gets an error and never changes the verdict on
    the rest: whatever the textarea holds, or with no message at all, the
    error map is the same. *)
Theorem message_never_matters (d : FormData) (m : option (list N)) (v : list N) :
  validate (setMessage m d) = validate d
  ∧ validate (setControl Message v d) = validate d
  ∧ validate d !! [Zod.Key "message"] = None.
Proof.
  assert (∀ m', validate (setMessage m' d) = validate d) as H.
  { intros m'. unfold validate, Resolver.zodResolver.
    rewrite schema_setMessage. by destruct (schema [] d). }
  split; [apply H |]. split; [apply (H (Some v)) |].
  apply validate_elsewhere; [| done].
  rewrite !not_elem_of_cons. repeat split; try done. apply not_elem_of_nil.
Qed.

(** X4.  Editing one control can change the error of that control only:
    after an edit of a text control, of the role, or of skill [i], the error
    at every other path is what it was. *)
Theorem edit_changes_own_error_only
    (d : FormData) (p : list Zod.seg) (c : control) (v : list N) (i : nat) :
  (p ≠ controlPath c → validate (setControl c v d) !! p = validate d !! p)
  ∧ (p ≠ [Zod.Key "role"] → validate (setRole v d) !! p = validate d !! p)
  ∧ (p ≠ [Zod.Key "skills"; Zod.Idx i; Zod.Key "value"] →
     validate (setSkills (<[i := {| value := v |}]> (skills d)) d) !! p
     = validate d !! p).
Proof.
  destruct (path_cases p) as [[f ->]|[Hp Hj]].
  2: { by rewrite !validate_elsewhere. }
  split; [| split].
  - intros Hne.
    destruct c, f; simpl in Hne |- *; try done;
      by rewrite ?validate_firstName, ?validate_lastName, ?validate_email,
                 ?validate_contact, ?validate_role, ?validate_skills,
                 ?validate_skill.
  - intros Hne.
    destruct f; simpl in Hne |- *; try done;
      by rewrite ?validate_firstName, ?validate_lastName, ?validate_email,
                 ?validate_contact, ?validate_role, ?validate_skills,
                 ?validate_skill.
  - intros Hne.
    destruct f; simpl in Hne |- *;
      rewrite ?validate_firstName, ?validate_lastName, ?validate_email,
              ?validate_contact, ?validate_role, ?validate_skills,
              ?validate_skill; cbn [setSkills firstName lastName email contact
                                    role skills]; try done.
    + by rewrite length_insert.
    + rewrite list_lookup_insert_ne; [done | congruence].
Qed.

Lemma edit_changes_own_error_only_witness :
  validate (setControl FirstName (JS.lit "Ann") defaultValues) !! [Zod.Key "lastName"]
  = Some "Last Name is required"%string
  ∧ validate (setSkills (<[0 := {| value := JS.lit "Go" |}]> (skills defaultValues))
                defaultValues) !! [Zod.Key "role"]
    = Some "Role is required"%string.
Proof.
  destruct (edit_changes_own_error_only defaultValues [Zod.Key "lastName"]
              FirstName (JS.lit "Ann") 0) as (Hc & _).
  destruct (edit_changes_own_error_only defaultValues [Zod.Key "role"]
              FirstName (JS.lit "Go") 0) as (_ & _ & Hs).
  split.
  - rewrite Hc; [reflexivity | discriminate].
  - rewrite Hs; [reflexivity | discriminate].
Defined.

(** X5.  The errors of the skills follow their entries when one is removed:
    after [remove(i)], the entries before [i] keep their errors and each
    later entry carries its error one index down. *)
Theorem remove_shifts_skill_errors (st : AppState) (i j : nat) :
  validate (formValues (RHF.remove i st))
    !! [Zod.Key "skills"; Zod.Idx j; Zod.Key "value"]
  = validate (formValues st)
      !! [Zod.Key "skills"; Zod.Idx (if decide (j < i) then j else S j);
          Zod.Key "value"].
Proof.
  rewrite !validate_skill. cbn [RHF.remove formValues setSkills skills].
  destruct (decide (j < i)).
  - by rewrite list_lookup_delete_lt.
  - by rewrite list_lookup_delete_ge by lia.
Qed.

(** ** Further properties of the component *)

Section component_facts.

Lemma validate_defaultValues : validate defaultValues ≠ ∅.
Proof.
  intros H. assert (validate defaultValues !! [Zod.Key "role"] = None) as Hr
    by (by rewrite H).
  by rewrite validate_role in Hr.
Qed.

Lemma submitted_ok_step st e : submitted_ok st → submitted_ok (step st e).
Proof.
  intros [Hrole Hsub]. split; [by apply role_step |].
  destruct e as [c v|k|i v|i| |]; simpl; try done.
  - by destruct (roleOptions !! k).
  - by case_bool_decide.
  - rewrite handleSubmit_spec. simpl.
    destruct (decide (validate (formValues st) = ∅)) as [Hok|]; [| done].
    simpl. intros r [= <-]. split; [done |].
    assert (role (formValues st) ≠ []) as Hne.
    { apply (validate_required _ RRole). by rewrite Hok. }
    unfold roleOptions in Hrole. apply elem_of_cons in Hrole as [Hr|Hr]; done.
Qed.

Lemma submitted_ok_run es : submitted_ok (run init es).
Proof.
  assert (∀ st, submitted_ok st → submitted_ok (run st es)) as H.
  { induction es as [|e es IH]; intros st Hst; [done |].
    apply IH, submitted_ok_step, Hst. }
  apply H. split; [left | done].
Qed.

End component_facts.

(** X7.  A second click on Submit right after a first is always rejected:
    it takes no record and leaves the values, the ids and [submittedData] as
    the first click left them.  Its error map is that of the values it
    finds: after an accepted first click these are the defaults the form was
    reset to, so the messages of the required fields appear; after a
    rejected one nothing had changed. *)
Theorem second_submit_is_rejected (st : AppState) :
  let st1 := (RHF.handleSubmit onSubmit st).1 in
  RHF.handleSubmit onSubmit st1 = (st1, validate (formValues st1))
  ∧ validate (formValues st1) ≠ ∅
  ∧ (validate (formValues st) = ∅ →
     submittedData st1 = Some (formValues st)
     ∧ formValues st1 = defaultValues
     ∧ validate (formValues st1) !! [Zod.Key "firstName"]
       = Some "First Name is required"%string)
  ∧ (validate (formValues st) ≠ ∅ → st1 = st).
Proof.
  intros st1.
  assert (validate (formValues st1) ≠ ∅) as Hno.
  { unfold st1. rewrite handleSubmit_spec. cbn [fst].
    destruct (decide (validate (formValues st) = ∅)); [| done].
    apply validate_defaultValues. }
  split; [by rewrite handleSubmit_spec, decide_False |]. split; [done |].
  unfold st1. rewrite handleSubmit_spec. cbn [fst]. split.
  - intros Hok. rewrite decide_True by done.
    cbn [onSubmit RHF.reset setSubmittedData formValues submittedData].
    split; [done |]. split; [done |]. by rewrite validate_firstName.
  - intros Hbad. by rewrite decide_False.
Qed.

Lemma second_submit_is_rejected_witness :
  let st := setFormValues ann init in
  submittedData (RHF.handleSubmit onSubmit st).1 = Some ann
  ∧ (RHF.handleSubmit onSubmit (RHF.handleSubmit onSubmit st).1).1
    = (RHF.handleSubmit onSubmit st).1
  ∧ RHF.handleSubmit onSubmit init = (init, validate defaultValues).
Proof.
  intros st.
  destruct (second_submit_is_rejected st) as (Hsecond & _ & Hok & _).
  destruct (second_submit_is_rejected init) as (_ & _ & _ & Hbad).
  destruct Hok as (Hsub & _); [by apply validate_empty |].
  split; [exact Hsub |]. split; [by rewrite Hsecond |].
  specialize (Hbad validate_defaultValues). by rewrite handleSubmit_spec, decide_False
    by apply validate_defaultValues.
Defined.

(** X8.  Whatever the user does, the record shown as submitted is one the
    schema accepted, and its role is one of student, developer, designer. *)
Theorem submitted_record_is_valid (es : list event) (r : FormData) :
  submittedData (run init es) = Some r →
  validate r = ∅ ∧ role r ∈ specRoles.
Proof. apply submitted_ok_run. Qed.

Lemma submitted_record_is_valid_witness :
  validate ann = ∅ ∧ role ann ∈ specRoles.
Proof.
  apply (submitted_record_is_valid
           [Type_ FirstName (JS.lit "Ann"); Type_ LastName (JS.lit "Lee");
            Type_ Email (JS.lit "ann@x.com"); Type_ Contact (JS.lit "1234567890");
            SelectRole 2; TypeSkill 0 (JS.lit "Go"); ClickSubmit] ann).
  by vm_compute.
Defined.

(** X9.  [submittedData] changes only when a submit is accepted, and then
    to the values just submitted; once a record is held, one is held ever
    after. *)
Theorem submittedData_only_replaced (st : AppState) (e : event) (es : list event) :
  (submittedData (step st e) = submittedData st
   ∨ (e = ClickSubmit ∧ validate (formValues st) = ∅
      ∧ submittedData (step st e) = Some (formValues st)))
  ∧ (is_Some (submittedData st) → is_Some (submittedData (run st es))).
Proof.
  assert (∀ st e, submittedData (step st e) = submittedData st
                  ∨ (e = ClickSubmit ∧ validate (formValues st) = ∅
                     ∧ submittedData (step st e) = Some (formValues st))) as Hstep.
  { clear. intros st e. destruct e as [c v|k|i v|i| |]; simpl; try by left.
    - left. by destruct (roleOptions !! k).
    - left. by case_bool_decide.
    - rewrite handleSubmit_spec. simpl.
      destruct (decide _); [right | left]; done. }
  split; [apply Hstep |].
  revert st. induction es as [|e' es IH]; intros st Hst; [done |].
  simpl. apply IH. destruct (Hstep st e') as [->|(_ & _ & ->)]; eauto.
Qed.

Lemma submittedData_only_replaced_witness :
  is_Some (submittedData
             (run (setSubmittedData ann init)
                  [ClickAdd; Type_ FirstName (JS.lit "Bo"); ClickSubmit; ClickRemove 0])).
Proof.
  apply (submittedData_only_replaced (setSubmittedData ann init) ClickAdd
           [ClickAdd; Type_ FirstName (JS.lit "Bo"); ClickSubmit; ClickRemove 0]).
  simpl. eauto.
Defined.

(** X10.  The form never gets the error "At least one skill is required":
    it starts with one skill, resets to one, and the X button is disabled on
    the last one, so the check of the length of the list always passes. *)
Theorem skills_length_error_unreachable (es : list event) :
  validate (formValues (run init es)) !! [Zod.Key "skills"] = None.
Proof.
  assert (wf (run init es)) as [Hlen Hne _ _] by apply wf_run, wf_init.
  rewrite validate_skills, decide_True; [done | lia].
Qed.

(** X11.  Add Skill followed by the X button of the new row puts the skills
    back as they were, values and ids, and touches nothing else. *)
Theorem add_then_remove_restores (es : list event) :
  let st := run init es in
  let st' := step (step st ClickAdd) (ClickRemove (length (fields st))) in
  formValues st' = formValues st
  ∧ fieldIds st' = fieldIds st
  ∧ fields st' = fields st
  ∧ submittedData st' = submittedData st.
Proof.
  intros st st'.
  assert (wf st) as Hwf by apply wf_run, wf_init.
  assert (wf (step st ClickAdd)) as Hwf' by by apply wf_step.
  pose proof Hwf as [Hlen Hne _ _].
  pose proof (length_fields _ Hwf) as Hf.
  pose proof (length_fields _ Hwf') as Hf'.
  assert (st' = RHF.remove (length (fields st))
                  (RHF.append {| value := JS.lit "" |} st)) as ->.
  { unfold st'. cbn [step] in *. rewrite bool_decide_eq_false_2; [done |].
    rewrite Hf'. cbn [RHF.append fieldIds]. rewrite length_app. simpl. lia. }
  assert (formValues (RHF.remove (length (fields st))
                        (RHF.append {| value := JS.lit "" |} st)) = formValues st) as Hv.
  { cbn [RHF.remove RHF.append formValues setSkills skills firstName lastName
         email contact role message].
    rewrite Hf, Hlen, (delete_middle _ []), app_nil_r. by destruct (formValues st). }
  assert (fieldIds (RHF.remove (length (fields st))
                      (RHF.append {| value := JS.lit "" |} st)) = fieldIds st) as Hi.
  { cbn [RHF.remove RHF.append fieldIds].
    by rewrite Hf, (delete_middle _ []), app_nil_r. }
  split; [done |]. split; [done |]. split; [| done].
  revert Hv Hi. generalize (length (fields st)). intros n Hv Hi.
  unfold fields. by rewrite Hv, Hi.
Qed.

(** X12.  A row added by Add Skill has to be filled in: until it is, the
    form reports "Skill is required" at the index of the new row and Submit
    changes nothing. *)
Theorem added_skill_must_be_filled (st : AppState) :
  let st' := step st ClickAdd in
  validate (formValues st')
    !! [Zod.Key "skills"; Zod.Idx (length (skills (formValues st))); Zod.Key "value"]
  = Some "Skill is required"%string
  ∧ step st' ClickSubmit = st'.
Proof.
  intros st'.
  assert (validate (formValues st')
            !! [Zod.Key "skills"; Zod.Idx (length (skills (formValues st)));
                Zod.Key "value"] = Some "Skill is required"%string) as Hm.
  { rewrite validate_skill. cbn [st' step RHF.append formValues setSkills skills].
    by rewrite list_lookup_middle. }
  split; [done |]. cbn [step]. by rewrite (handleSubmit_rejected _ _ _ _ Hm).
Qed.
